(** * Vite-Projects: the Context stores, the todo mutators and the rate hook

    A shallow embedding of the state-handling code of the repository:
    - [TodoContext.js]  (createContext default, [useTodo]),
    - the [App] component of the todo project (its four [setTodos] updaters),
    - the theme switcher's [App] ([themeMode] and its two setters),
    - [UserContext.js] of miniContext,
    - [useCurrencyInfo.js].

    JavaScript completions (normal return or throw) are explicit, so that a
    statement "the call returns ..." is a statement about a [Normal] result. *)

From Stdlib Require Import ZArith QArith.
From stdpp Require Import gmap strings list.

Local Open Scope Z_scope.
Local Open Scope string_scope.

(** ** JavaScript completions, state and values *)

Module Js.

Inductive error : Type :=
| ReferenceError (name : string)   (* read of an identifier that is bound nowhere *)
| TypeError (msg : string)         (* property read on undefined/null, failed fetch *)
| SyntaxError (msg : string).      (* body that is not JSON *)

Inductive completion (A : Type) : Type :=
| Normal (a : A)
| Throw (e : error).
Arguments Normal {A} a.
Arguments Throw {A} e.

(** A computation over a mutable state [S]: the completion, and the state
    it leaves behind (also when it throws). *)
Definition M (S A : Type) : Type := S -> completion A * S.

Definition ret {S A} (a : A) : M S A := fun s => (Normal a, s).
Definition throw {S A} (e : error) : M S A := fun s => (Throw e, s).
Definition bind {S A B} (m : M S A) (k : A -> M S B) : M S B :=
  fun s => match m s with
           | (Normal a, s') => k a s'
           | (Throw e, s') => (Throw e, s')
           end.
Definition get {S} : M S S := fun s => (Normal s, s).
Definition put {S} (s : S) : M S unit := fun _ => (Normal tt, s).

(** A promise that has settled, awaited: its value, or its rejection
    reason thrown. *)
Definition settled {S A} (c : completion A) : M S A := fun s => (c, s).

(** [try { m } catch (e) { h e }], which is also [promise.catch(h)] on a
    settled promise. *)
Definition catch {S A} (m : M S A) (h : error -> M S A) : M S A :=
  fun s => match m s with
           | (Normal a, s') => (Normal a, s')
           | (Throw e, s') => h e s'
           end.

(** [Array.prototype.map]: the callback runs on the elements in index
    order; the first throw aborts the whole call. *)
Fixpoint array_map {S A B} (f : A -> M S B) (l : list A) : M S (list B) :=
  match l with
  | [] => ret []
  | x :: l' => bind (f x) (fun y => bind (array_map f l') (fun ys => ret (y :: ys)))
  end.

(** Values: [undefined] and the JSON data model. *)
#[warnings="-register-all"]
Inductive value : Type :=
| VUndefined
| VNull
| VBool (b : bool)
| VNum (q : Q)
| VStr (s : string)
| VArr (elems : list value)
| VObj (fields : list (string * value)).

Fixpoint assoc (k : string) (fields : list (string * value)) : option value :=
  match fields with
  | [] => None
  | (k', v) :: rest => if String.eqb k k' then Some v else assoc k rest
  end.

(** A binding that holds [undefined] or a value of the expected shape. *)
Inductive optional (A : Type) : Type :=
| Undefined
| Defined (a : A).
Arguments Undefined {A}.
Arguments Defined {A} a.

(** [const { ... } = v]: destructuring [undefined] is a TypeError. *)
Definition destructure {S A} (v : optional A) : M S A :=
  match v with
  | Undefined => throw (TypeError "Cannot destructure undefined")
  | Defined a => ret a
  end.

(** [v.k]: a TypeError on [undefined] and [null], the own property on an
    object, [undefined] on everything that has no such property. *)
Definition get_prop {S} (v : value) (k : string) : M S value :=
  match v with
  | VUndefined | VNull => throw (TypeError ("Cannot read properties of undefined or null: " ++ k))
  | VObj fields => ret (default VUndefined (assoc k fields))
  | _ => ret VUndefined
  end.

End Js.

Import Js.

Declare Scope js_scope.
Delimit Scope js_scope with js.
Notation "'let!' x ':=' m 'in' k" := (bind m (fun x => k))
  (at level 10, x name, m at level 100, k at level 200) : js_scope.
Notation "m ';;' k" := (bind m (fun _ => k))
  (at level 100, k at level 200, right associativity) : js_scope.
Local Open Scope js_scope.

(** ** The todo record *)

Module Todo.
(** [{ id, todo, completed }] as [TodoForm] and [addTodo] build it: [id] a
    number (the milliseconds of [Date.now()], or the literal [1] of the
    placeholder) compared with [===], [todo] the text, [completed] a
    boolean. *)
Record t : Type := mk { id : Z; todo : string; completed : bool }.

#[global] Instance eq_dec : EqDecision t.
Proof. solve_decision. Defined.

(** The object [TodoForm] passes to [addTodo]: [{ todo, completed: false }].
    It has no [id] field, so the spread in [addTodo] cannot override the
    generated one. *)
Record Payload : Type := { p_todo : string; p_completed : bool }.
End Todo.

(** ** The todo project's [App]: [todos], [setTodos] and the four mutators *)

Module TodoApp.

(** [const [todos, setTodos] = useState([])]: the state of the component is
    the collection. *)
Definition initial : list Todo.t := [].

(** [setTodos(updater)]: the state becomes what the updater returns for the
    current state; when the updater throws, the state stays and the
    exception surfaces. The call itself evaluates to [undefined].
    React runs the updater for the render that follows the call, so that is
    where a throw of the updater surfaces, and it takes the root down: a
    [Throw] here is that exception, beside the last state that was rendered
    ([TodoRoot] below has the call and the render apart). *)
Definition setTodos (updater : list Todo.t -> M (list Todo.t) (list Todo.t))
  : M (list Todo.t) value :=
  let! prev := get in
  let! next := updater prev in
  put next ;; ret VUndefined.

(** [setTodos((prev) => [{ id: Date.now(), ...todo }, ...prev])], with
    [now] the number that this call of [Date.now()] returns. *)
Definition addTodo (now : Z) (todo : Todo.Payload) : M (list Todo.t) value :=
  setTodos (fun prev =>
    ret ({| Todo.id := now; Todo.todo := Todo.p_todo todo;
           Todo.completed := Todo.p_completed todo |}
         :: prev)).

(** [setTodos((prev) =>
      prev.map((prevTodo) => (prevTodo.id === id ? todo : prevTodo)))] *)
Definition updatedTodo (id : Z) (todo : Todo.t) : M (list Todo.t) value :=
  setTodos (fun prev =>
    array_map (fun prevTodo => if (prevTodo.(Todo.id) =? id)%Z then ret todo else ret prevTodo) prev).

(** [setTodos((prev) =>
      prev.map((prevTodo) => (prevTodo.id === id ? todo : prevTodo)))]:
    the text of [updatedTodo], under the single parameter [id]. [todo] is
    bound neither in [deleteTodo], nor in [App], nor at module level:
    reading it throws a ReferenceError. *)
Definition deleteTodo (id : Z) : M (list Todo.t) value :=
  setTodos (fun prev =>
    array_map (fun prevTodo =>
                 if (prevTodo.(Todo.id) =? id)%Z then throw (ReferenceError "todo") else ret prevTodo)
              prev).

(** [setTodos((prev) => prev.map((prevTodo) =>
      prevTodo.id === id
        ? { ...prevTodo, completed: !prevTodo.completed } : prevTodo))] *)
Definition toggleComplete (id : Z) : M (list Todo.t) value :=
  setTodos (fun prev =>
    array_map (fun prevTodo =>
                 if (prevTodo.(Todo.id) =? id)%Z
                 then ret {| Todo.id := prevTodo.(Todo.id);
                             Todo.todo := prevTodo.(Todo.todo);
                             Todo.completed := negb prevTodo.(Todo.completed) |}
                 else ret prevTodo)
              prev).

(** What the user does to the list, as far as adding and deleting go: each
    event is one mutator call, and the clock reading of an [Add] is the
    value of its [Date.now()]. *)
Inductive event : Type :=
| Add (now : Z) (todo : Todo.Payload)
| Delete (id : Z).

Definition handle (e : event) : M (list Todo.t) value :=
  match e with
  | Add now todo => addTodo now todo
  | Delete id => deleteTodo id
  end.

(** The events in program order; the first throw ends the run. *)
Fixpoint run (es : list event) : M (list Todo.t) value :=
  match es with
  | [] => ret VUndefined
  | e :: es' => handle e ;; run es'
  end.

Definition ids (todos : list Todo.t) : list Z := map Todo.id todos.

(** The clock readings of the [Add]s of a run, and the records they build,
    both in program order. *)
Fixpoint clocks (es : list event) : list Z :=
  match es with
  | [] => []
  | Add now _ :: es' => now :: clocks es'
  | Delete _ :: es' => clocks es'
  end.

Fixpoint records (es : list event) : list Todo.t :=
  match es with
  | [] => []
  | Add now todo :: es' =>
      {| Todo.id := now; Todo.todo := Todo.p_todo todo;
         Todo.completed := Todo.p_completed todo |} :: records es'
  | Delete _ :: es' => records es'
  end.

(** Every [Delete] of the run names an id that no record of the collection
    has at that moment. *)
Fixpoint deletes_miss (es : list event) (todos : list Todo.t) : bool :=
  match es with
  | [] => true
  | Add now todo :: es' =>
      deletes_miss es' ({| Todo.id := now; Todo.todo := Todo.p_todo todo;
                           Todo.completed := Todo.p_completed todo |} :: todos)
  | Delete id :: es' =>
      negb (existsb (fun t => (t.(Todo.id) =? id)%Z) todos) && deletes_miss es' todos
  end.

End TodoApp.

(** ** The collection operations in the words of the specification

    Used only to compare the code with: "[addTodo(todo)]: generates a unique
    id, prepends [{id, ...todo}] to the collection" and "[deleteTodo(id)]:
    filters out the matching record; unmatched id: no-op". *)

Module Spec.

Definition addTodo (id : Z) (todo : Todo.Payload) (todos : list Todo.t) : list Todo.t :=
  {| Todo.id := id; Todo.todo := Todo.p_todo todo; Todo.completed := Todo.p_completed todo |}
  :: todos.

Definition deleteTodo (id : Z) (todos : list Todo.t) : list Todo.t :=
  filter (fun t => t.(Todo.id) ≠ id) todos.

Definition step (todos : list Todo.t) (e : TodoApp.event) : list Todo.t :=
  match e with
  | TodoApp.Add now todo => addTodo now todo todos
  | TodoApp.Delete id => deleteTodo id todos
  end.

Definition run (es : list TodoApp.event) (todos : list Todo.t) : list Todo.t :=
  foldl step todos es.

End Spec.

(** ** The records of the specification's scenarios *)

Module Scenario.
Definition buy_milk : Todo.Payload := {| Todo.p_todo := "buy milk"; Todo.p_completed := false |}.
Definition walk_dog : Todo.Payload := {| Todo.p_todo := "walk dog"; Todo.p_completed := false |}.

Definition milk (id : Z) : Todo.t :=
  {| Todo.id := id; Todo.todo := "buy milk"; Todo.completed := false |}.
Definition dog (id : Z) : Todo.t :=
  {| Todo.id := id; Todo.todo := "walk dog"; Todo.completed := false |}.
End Scenario.

(** [{ ...t, completed: !t.completed }] *)
Definition flip_completed (t : Todo.t) : Todo.t :=
  {| Todo.id := t.(Todo.id); Todo.todo := t.(Todo.todo);
     Todo.completed := negb t.(Todo.completed) |}.

(** ** React's context: [createContext] and [useContext] *)

Module React.

(** [createContext(defaultValue)]; [createContext()] has the default
    [undefined]. *)
Record Context (V : Type) : Type := createContext { defaultValue : V }.
Arguments createContext {V} defaultValue.
Arguments defaultValue {V} c.

(** [useContext(ctx)] in a component whose enclosing [ctx.Provider]s carry
    the values [providers], innermost first: the nearest provider's value,
    and the default of [createContext] when there is none. *)
Definition useContext {S V} (ctx : Context V) (providers : list V) : M S V :=
  ret (match providers with
       | v :: _ => v
       | [] => defaultValue ctx
       end).

End React.

(** ** [TodoContext.js] *)

Module TodoContext.
Import React.

Record Value (S : Type) : Type := {
  todos : list Todo.t;
  addTodo : Todo.Payload -> M S value;
  updatedTodo : Z -> Todo.t -> M S value;
  deleteTodo : Z -> M S value;
  toggleComplete : Z -> M S value
}.
Arguments todos {S} v.
Arguments addTodo {S} v.
Arguments updatedTodo {S} v.
Arguments deleteTodo {S} v.
Arguments toggleComplete {S} v.

(** [createContext({ todos: [{ id: 1, todo: " Todo msg", completed: false }],
      addTodo: (_todo) => {}, updatedTodo: (_id, _todo) => {},
      deleteTodo: (_id) => {}, toggleComplete: (_id) => {} })] *)
Definition TodoContext {S} : Context (Value S) :=
  createContext
    {| todos := [ {| Todo.id := 1; Todo.todo := " Todo msg"; Todo.completed := false |} ];
       addTodo := fun _todo => ret VUndefined;
       updatedTodo := fun _id _todo => ret VUndefined;
       deleteTodo := fun _id => ret VUndefined;
       toggleComplete := fun _id => ret VUndefined |}.

(** [useTodo = () => useContext(TodoContext)] *)
Definition useTodo {S} (providers : list (Value S)) : M S (Value S) :=
  useContext TodoContext providers.

End TodoContext.

(** ** The theme switcher: [contexts/them.js] and [App.jsx] *)

Module ThemeSwitcher.
Import React.

Module Them.
Record Value (S : Type) : Type := {
  themeMode : string;
  darkTheme : M S value;
  lightTheme : M S value
}.
Arguments themeMode {S} v.
Arguments darkTheme {S} v.
Arguments lightTheme {S} v.

(** [createContext({ themeMode: "light", darkTheme: () => {},
      lightTheme: () => {} })] *)
Definition ThemeContext {S} : Context (Value S) :=
  createContext {| themeMode := "light";
                   darkTheme := ret VUndefined;
                   lightTheme := ret VUndefined |}.

(** [useTheme() { return useContext(ThemeContext) }] *)
Definition useTheme {S} (providers : list (Value S)) : M S (Value S) :=
  useContext ThemeContext providers.
End Them.

Module App.
(** [const [themeMode, setThemeMode] = useState("light")] *)
Definition initial : string := "light".

Definition setThemeMode (mode : string) : M string value :=
  put mode ;; ret VUndefined.

(** [lightTheme = () => { setThemeMode("light") }] *)
Definition lightTheme : M string value := setThemeMode "light".
(** [darkTheme = () => { setThemeMode("dark") }] *)
Definition darkTheme : M string value := setThemeMode "dark".

(** [<ThemeProvider value={{ themeMode, lightTheme, darkTheme }}>] *)
Definition provided (themeMode : string) : Them.Value string :=
  {| Them.themeMode := themeMode;
     Them.darkTheme := darkTheme;
     Them.lightTheme := lightTheme |}.

(** The variants the README declares for [themeMode]. *)
Definition declared_variant (mode : string) : Prop := mode = "light" ∨ mode = "dark".

(** The two setters are all that consumers can invoke. *)
Inductive setter : Type := Light | Dark.

Definition invoke (c : setter) : M string value :=
  match c with
  | Light => lightTheme
  | Dark => darkTheme
  end.

Fixpoint run (cs : list setter) : M string value :=
  match cs with
  | [] => ret VUndefined
  | c :: cs' => invoke c ;; run cs'
  end.
End App.

End ThemeSwitcher.

(** ** miniContext: [UserContext.js], the provider, [Login] and [Profile] *)

Module MiniContext.
Import React.

Record User : Type := { username : string; password : string }.

(** [{ user, setUser }]; [user] is [{}] until a login. *)
Record Value (S : Type) : Type := {
  user : option User;
  setUser : User -> M S value
}.
Arguments user {S} v.
Arguments setUser {S} v.

(** [const UserContext = React.createContext()] *)
Definition UserContext {S} : Context (optional (Value S)) := createContext Undefined.

(** [UserContextProvider]: [useState({})] and
    [<UserContext.Provider value={{ user, setUser }}>]. *)
Definition provided (user : option User) : optional (Value (option User)) :=
  Defined {| user := user; setUser := fun u => put (Some u) ;; ret VUndefined |}.

(** [Login]: [const { setUser } = useContext(UserContext)] *)
Definition Login {S} (providers : list (optional (Value S))) : M S (User -> M S value) :=
  let! ctx := useContext UserContext providers in
  let! v := destructure ctx in
  ret (setUser v).

(** [Profile]: [const { user } = useContext(UserContext)], then
    [if (!user || !user.username) return <div>Please Login</div>;
     return <div>Welcome {user.username}</div>]; the text it renders. *)
Definition Profile {S} (providers : list (optional (Value S))) : M S string :=
  let! ctx := useContext UserContext providers in
  let! v := destructure ctx in
  ret (match user v with
       | None => "Please Login"
       | Some u => if String.eqb (username u) "" then "Please Login"
                   else "Welcome " ++ username u
       end).

End MiniContext.

(** ** [useCurrencyInfo.js] *)

Module CurrencyConverter.

(** What [fetch] resolves to, as far as the hook reads it: [res.json()]
    settles to the parsed body or rejects with a SyntaxError. The hook
    never reads [status]. *)
Record Response : Type := {
  status : Z;
  json : completion value
}.

(** [res.ok] as the Fetch standard defines it: a status in 200..299. It
    appears nowhere in the hook; it is here to say which responses are HTTP
    errors. *)
Definition ok (res : Response) : bool := (200 <=? status res)%Z && (status res <=? 299)%Z.

(** [const [data, setData] = useState({})] *)
Definition initial : value := VObj [].

Definition setData (v : value) : M value value := put v ;; ret VUndefined.

Definition console_error {S} (_msg : string) (_e : error) : M S value := ret VUndefined.

(** The effect, once [fetch] has settled to [fetched] (rejected on a
    network failure, fulfilled with the response on every HTTP status):
    [fetch(url).then((res) => res.json())
               .then((res) => setData(res.rates))
               .catch((error) => { console.error(..., error); setData({}) })] *)
Definition effect (fetched : completion Response) : M value value :=
  catch (let! res := settled fetched in
         let! res := settled (json res) in
         let! rates := get_prop res "rates" in
         setData rates)
        (fun error =>
           console_error "Error fetching currency data:" error ;;
           setData (VObj [])).

(** [return data], in the render that follows the settled fetch; [data]
    is the state before it. *)
Definition useCurrencyInfo (fetched : completion Response) (data : value) : completion value :=
  match effect fetched data with
  | (Normal _, data') => Normal data'
  | (Throw e, _) => Throw e
  end.

End CurrencyConverter.

(** ** The todo [App] with arrays and records as heap objects

    [TodoApp] above passes collections by value. Whether a mutator changes
    the array it was given, or builds another one, is a question about
    references: here the state variable [todos] holds the address of an
    array, and an array holds the addresses of its records. *)

Module TodoAppRef.

Abbreviation loc := positive.

Record state : Type := State {
  objects : gmap positive Todo.t;          (* the records *)
  arrays : gmap positive (list positive);  (* the arrays, as lists of record addresses *)
  todos : positive                         (* [todos]: the current collection *)
}.

(** An object literal: a record at an address not in use. *)
Definition new_object (o : Todo.t) : M state loc :=
  fun s => let l := fresh (dom (objects s)) in
           (Normal l, State (<[l := o]> (objects s)) (arrays s) (todos s)).

(** An array literal, or the array [map] returns. *)
Definition new_array (elems : list loc) : M state loc :=
  fun s => let l := fresh (dom (arrays s)) in
           (Normal l, State (objects s) (<[l := elems]> (arrays s)) (todos s)).

(** Reads. An address without a cell is not a JavaScript value; the read
    throws, and [contents] below being defined rules it out. *)
Definition read_object (l : loc) : M state Todo.t :=
  fun s => match objects s !! l with
           | Some o => (Normal o, s)
           | None => (Throw (TypeError "not an object"), s)
           end.

Definition read_array (l : loc) : M state (list loc) :=
  fun s => match arrays s !! l with
           | Some elems => (Normal elems, s)
           | None => (Throw (TypeError "not an array"), s)
           end.

Definition read_todos : M state loc := fun s => (Normal (todos s), s).
Definition write_todos (l : loc) : M state unit :=
  fun s => (Normal tt, State (objects s) (arrays s) l).

(** [prev.map(callback)] *)
Definition map_method (prev : loc) (callback : loc -> M state loc) : M state loc :=
  let! elems := read_array prev in
  let! mapped := array_map callback elems in
  new_array mapped.

(** [setTodos(updater)]: [todos] becomes the array the updater returns; a
    [Throw] is the exception of the updater, which React raises in the render
    that follows the call. *)
Definition setTodos (updater : loc -> M state loc) : M state value :=
  let! prev := read_todos in
  let! next := updater prev in
  write_todos next ;; ret VUndefined.

(** [setTodos((prev) => [{ id: Date.now(), ...todo }, ...prev])] *)
Definition addTodo (now : Z) (todo : Todo.Payload) : M state value :=
  setTodos (fun prev =>
    let! o := new_object {| Todo.id := now; Todo.todo := Todo.p_todo todo;
                            Todo.completed := Todo.p_completed todo |} in
    let! elems := read_array prev in
    new_array (o :: elems)).

(** [setTodos((prev) =>
      prev.map((prevTodo) => (prevTodo.id === id ? todo : prevTodo)))];
    [todo] is the address of the object the caller built. *)
Definition updatedTodo (id : Z) (todo : loc) : M state value :=
  setTodos (fun prev =>
    map_method prev (fun prevTodo =>
      let! o := read_object prevTodo in
      if (o.(Todo.id) =? id)%Z then ret todo else ret prevTodo)).

(** The same [map] in [deleteTodo], where [todo] is unbound. *)
Definition deleteTodo (id : Z) : M state value :=
  setTodos (fun prev =>
    map_method prev (fun prevTodo =>
      let! o := read_object prevTodo in
      if (o.(Todo.id) =? id)%Z then throw (ReferenceError "todo") else ret prevTodo)).

(** [setTodos((prev) => prev.map((prevTodo) =>
      prevTodo.id === id
        ? { ...prevTodo, completed: !prevTodo.completed } : prevTodo))]: the
    spread copies the fields into a new object. *)
Definition toggleComplete (id : Z) : M state value :=
  setTodos (fun prev =>
    map_method prev (fun prevTodo =>
      let! o := read_object prevTodo in
      if (o.(Todo.id) =? id)%Z
      then new_object {| Todo.id := o.(Todo.id); Todo.todo := o.(Todo.todo);
                         Todo.completed := negb o.(Todo.completed) |}
      else ret prevTodo)).

(** [useState([])] *)
Definition initial : state := State ∅ {[ 1%positive := [] ]} 1%positive.

(** The collection an array address stands for. *)
Definition contents (s : state) (a : loc) : option (list Todo.t) :=
  elems ← arrays s !! a; mapM (fun l => objects s !! l) elems.

(** Nothing that existed has changed: every record and every array of [s]
    is still there in [s'], with the same fields and elements. *)
Definition preserved (s s' : state) : Prop :=
  objects s ⊆ objects s' ∧ arrays s ⊆ arrays s'.

(** A mutator call that took [s] to [s'] left what existed alone, the
    collection [prev] it started from included, and made [todos] a new array
    that holds [next]. *)
Definition new_collection (s s' : state) (prev next : list Todo.t) : Prop :=
  preserved s s' ∧
  arrays s !! todos s' = None ∧
  contents s' (todos s) = Some prev ∧
  contents s' (todos s') = Some next.

(** The state after the scenario's two adds, at clock readings 1 and 2. *)
Definition two_todos : state :=
  snd (addTodo 2 Scenario.walk_dog (snd (addTodo 1 Scenario.buy_milk initial))).

End TodoAppRef.

(** ** The todo project's components: [TodoForm.jsx] and [TodoItem.jsx]

    A component's [useState] cell is passed in and handed back; the store
    behind the context functions is the state of [M]. *)

Module TodoForm.

(** [const [todo, setTodo] = useState("")] *)
Definition initial : string := "".

(** [const { addTodo } = useTodo()] and
    [add = (e) => { e.preventDefault(); if (!todo) return;
                    addTodo({ todo, completed: false }); setTodo("") }]:
    the new content of the input. *)
Definition add {S} (addTodo : Todo.Payload -> M S value) (todo : string) : M S string :=
  if String.eqb todo "" then ret todo
  else addTodo {| Todo.p_todo := todo; Todo.p_completed := false |} ;; ret "".

End TodoForm.

Module TodoItem.

(** [const [isTodoEditable, setIsTodoEditable] = useState(false)] and
    [const [todoMsg, setTodoMsg] = useState(todo.todo)] *)
Record state : Type := { isTodoEditable : bool; todoMsg : string }.

Definition initial (todo : Todo.t) : state :=
  {| isTodoEditable := false; todoMsg := todo.(Todo.todo) |}.

(** [onChange={(e) => setTodoMsg(e.target.value)}] *)
Definition onChange (value : string) (st : state) : state :=
  {| isTodoEditable := isTodoEditable st; todoMsg := value |}.

(** [editTodo = () => { updatedTodo(todo.id, { ...todo, todo: todoMsg });
                        setIsTodoEditable(false) }] *)
Definition editTodo {S} (updatedTodo : Z -> Todo.t -> M S value) (todo : Todo.t) (st : state)
  : M S state :=
  updatedTodo todo.(Todo.id)
              {| Todo.id := todo.(Todo.id); Todo.todo := todoMsg st;
                 Todo.completed := todo.(Todo.completed) |} ;;
  ret {| isTodoEditable := false; todoMsg := todoMsg st |}.

(** [toggleCompleted = () => { toggleComplete(todo.id) }], the checkbox's
    [onChange]. *)
Definition toggleCompleted {S} (toggleComplete : Z -> M S value) (todo : Todo.t) : M S value :=
  toggleComplete todo.(Todo.id).

(** The edit/save button:
    [onClick={() => { if (todo.completed) return;
                      if (isTodoEditable) { editTodo() }
                      else setIsTodoEditable((prev) => !prev) }}] *)
Definition edit_onClick {S} (updatedTodo : Z -> Todo.t -> M S value) (todo : Todo.t) (st : state)
  : M S state :=
  if todo.(Todo.completed) then ret st
  else if isTodoEditable st then editTodo updatedTodo todo st
  else ret {| isTodoEditable := negb (isTodoEditable st); todoMsg := todoMsg st |}.

(** The delete button: [onClick={() => deleteTodo(todo.id)}] *)
Definition delete_onClick {S} (deleteTodo : Z -> M S value) (todo : Todo.t) : M S value :=
  deleteTodo todo.(Todo.id).

End TodoItem.

(** ** The todo [App] under React: its provider and its root *)

Module TodoProvider.

(** [<TodoProvider value={{ todos, addTodo, updatedTodo, deleteTodo,
      toggleComplete }}>] in a render of [App] whose state is [todos]; [now]
    is what [Date.now()] returns when the [addTodo] of this render is
    called. *)
Definition provided (now : Z) (todos : list Todo.t) : TodoContext.Value (list Todo.t) :=
  {| TodoContext.todos := todos;
     TodoContext.addTodo := TodoApp.addTodo now;
     TodoContext.updatedTodo := TodoApp.updatedTodo;
     TodoContext.deleteTodo := TodoApp.deleteTodo;
     TodoContext.toggleComplete := TodoApp.toggleComplete |}.

End TodoProvider.

Module TodoRoot.

(** The root that renders [App]: mounted with the collection it shows, or
    taken down by the exception of a render. *)
Inductive root : Type :=
| Mounted (todos : list Todo.t)
| Unmounted (e : error).

(** A call of a mutator from an event handler, and the render it causes.
    The call returns [undefined] whatever the updater does: React runs the
    updater for the next render. When the updater returns, [App] renders its
    result; when it throws, the render throws and, there being no error
    boundary, React unmounts the root. Calls on an unmounted [App] do
    nothing. *)
Definition call (mutator : M (list Todo.t) value) (r : root) : value * root :=
  match r with
  | Mounted todos =>
      match mutator todos with
      | (Normal _, next) => (VUndefined, Mounted next)
      | (Throw e, _) => (VUndefined, Unmounted e)
      end
  | Unmounted e => (VUndefined, Unmounted e)
  end.

End TodoRoot.

(** ** The todo [App] as the user drives it

    [App] renders one [TodoItem] per record of [todos], under the provider
    that carries its four mutators; a user action is a handler of [TodoForm]
    or of the item rendered at an index. *)

Module TodoUI.

Inductive action : Type :=
| Submit (now : Z) (input : string)      (* the form is submitted; [Date.now()] reads [now] *)
| Checkbox (i : nat)                     (* the checkbox of item [i] *)
| EditButton (i : nat) (st : TodoItem.state)  (* the edit/save button of item [i], in local state [st] *)
| DeleteButton (i : nat).                (* the delete button of item [i] *)

(** [todos.map((todo) => <TodoItem todo={todo} />)]: the handler of the item
    at index [i]; there is no item, and no handler to run, past the end. *)
Definition on_item (i : nat) (handler : Todo.t -> M (list Todo.t) value) : M (list Todo.t) value :=
  let! todos := get in
  match todos !! i with
  | Some todo => handler todo
  | None => ret VUndefined
  end.

Definition perform (a : action) : M (list Todo.t) value :=
  match a with
  | Submit now input => TodoForm.add (TodoApp.addTodo now) input ;; ret VUndefined
  | Checkbox i => on_item i (TodoItem.toggleCompleted TodoApp.toggleComplete)
  | EditButton i st =>
      on_item i (fun todo => TodoItem.edit_onClick TodoApp.updatedTodo todo st ;; ret VUndefined)
  | DeleteButton i => on_item i (TodoItem.delete_onClick TodoApp.deleteTodo)
  end.

(** The actions in order; the first throw ends the run. *)
Fixpoint run (acts : list action) : M (list Todo.t) value :=
  match acts with
  | [] => ret VUndefined
  | a :: acts' => perform a ;; run acts'
  end.

(** The clock readings of the submissions that pass the form's check, in
    order. *)
Fixpoint clocks (acts : list action) : list Z :=
  match acts with
  | [] => []
  | Submit now input :: acts' =>
      if String.eqb input "" then clocks acts' else now :: clocks acts'
  | _ :: acts' => clocks acts'
  end.

Definition is_delete (a : action) : bool :=
  match a with
  | DeleteButton _ => true
  | _ => false
  end.

End TodoUI.

(** ** Runs of the mutators by reference *)

Module TodoAppRefRun.
Import TodoAppRef.

(** One call of a mutator of [TodoAppRef]; the patch of an update is the
    address of the object the caller built. *)
Inductive call : Type :=
| CallAdd (now : Z) (todo : Todo.Payload)
| CallUpdate (id : Z) (todo : positive)
| CallDelete (id : Z)
| CallToggle (id : Z).

Definition perform (c : call) : M state value :=
  match c with
  | CallAdd now todo => addTodo now todo
  | CallUpdate id todo => updatedTodo id todo
  | CallDelete id => deleteTodo id
  | CallToggle id => toggleComplete id
  end.

(** The calls in order, each on the state the one before left, whether it
    returned or threw. In React a throwing call unmounts [App] and the calls
    after it are ignored: the runs of the program are the call lists with no
    call after a throwing one, and every one of them is a run here. *)
Fixpoint run (cs : list call) (s : state) : state :=
  match cs with
  | [] => s
  | c :: cs' => run cs' (snd (perform c s))
  end.

(** A computation that leaves every existing record and array as it is. *)
Definition grows {A} (m : M state A) : Prop := ∀ s, preserved s (snd (m s)).

End TodoAppRefRun.

(** ** The theme switcher's button and the class of the [html] element *)

Module ThemeBtn.
Import ThemeSwitcher.

(** [onChangeBtn = (e) => { const darkModeStatus = e.currentTarget.checked;
      if (darkModeStatus) { darkTheme() } else { lightTheme() } }],
    on the [{ themeMode, lightTheme, darkTheme }] that [useTheme()] returned;
    [checked] is the state of the checkbox after the click. *)
Definition onChangeBtn {S} (ctx : Them.Value S) (checked : bool) : M S value :=
  if checked then Them.darkTheme ctx else Them.lightTheme ctx.

(** [checked={themeMode === "dark"}] *)
Definition checked {S} (ctx : Them.Value S) : bool :=
  String.eqb (Them.themeMode ctx) "dark".

End ThemeBtn.

Module ThemeDom.

(** [classList.remove(...tokens)] and [classList.add(token)] of a
    DOMTokenList, an ordered set of class names: [remove] drops the tokens,
    [add] appends the token unless it is there. *)
Definition classList_remove (tokens : list string) (classes : list string) : list string :=
  filter (fun c => c ∉ tokens) classes.

Definition classList_add (token : string) (classes : list string) : list string :=
  if decide (token ∈ classes) then classes else (classes ++ [token])%list.

(** The effect of the theme [App], on the classes of the [html] element:
    [document.querySelector("html").classList.remove("light", "dark");
     document.querySelector("html").classList.add(themeMode)] *)
Definition effect (themeMode : string) : M (list string) value :=
  let! classes := get in
  put (classList_remove ["light"; "dark"] classes) ;;
  let! classes := get in
  put (classList_add themeMode classes) ;;
  ret VUndefined.

(** The [App] with its [html] element: the state cell and the classes. *)
Record page : Type := Page { themeMode : string; classes : list string }.

(** The first render: [useState("light")], then the effect. *)
Definition mount (classes : list string) : page :=
  Page ThemeSwitcher.App.initial (snd (effect ThemeSwitcher.App.initial classes)).

(** A setter call and the render it causes: [useEffect(..., [themeMode])]
    runs the effect again when [themeMode] has changed. *)
Definition invoke (c : ThemeSwitcher.App.setter) (p : page) : page :=
  let mode := snd (ThemeSwitcher.App.invoke c (themeMode p)) in
  if String.eqb mode (themeMode p) then p
  else Page mode (snd (effect mode (classes p))).

Definition run (cs : list ThemeSwitcher.App.setter) (p : page) : page :=
  foldl (fun p c => invoke c p) p cs.

End ThemeDom.

(** ** miniContext: the submit handler of [Login] *)

Module LoginForm.
Import MiniContext.

(** [handleSubmit = (e) => { e.preventDefault(); setUser({ username, password }) }],
    with [username] and [password] the contents of the two inputs. *)
Definition handleSubmit {S} (setUser : User -> M S value) (username password : string)
  : M S value :=
  setUser {| MiniContext.username := username; MiniContext.password := password |}.

(** The provider's state after a submit in [Login], rendered under the
    provider in state [user]. *)
Definition submit (username password : string) : M (option User) value :=
  let! user := get in
  let! setUser := Login [provided user] in
  handleSubmit setUser username password.

(** What [Profile] shows under the provider in state [user]. *)
Definition profile : M (option User) string :=
  let! user := get in
  Profile [provided user].

End LoginForm.

(** * Properties *)

(** ** The monad and [Array.prototype.map] *)

Section ArrayMap.
Context {S A B : Type}.
Implicit Types (f : A -> M S B) (l : list A) (s : S).

(** A callback that returns [g x] on every element and leaves the state:
    [map] returns the image of the array. *)
Lemma array_map_pure f (g : A -> B) l s :
  (∀ x, x ∈ l → f x s = (Normal (g x), s)) →
  array_map f l s = (Normal (map g l), s).
Proof.
  induction l as [|x l IH]; intros Hf; simpl.
  - reflexivity.
  - unfold bind at 1. rewrite (Hf x) by left.
    unfold bind. rewrite IH; [reflexivity|].
    intros y Hy. apply Hf. by right.
Qed.

(** A callback that throws on one element, after returning on those before
    it: [map] throws. *)
Lemma array_map_throw f (g : A -> B) l1 x l2 e s :
  (∀ y, y ∈ l1 → f y s = (Normal (g y), s)) →
  f x s = (Throw e, s) →
  array_map f (l1 ++ x :: l2)%list s = (Throw e, s).
Proof.
  induction l1 as [|y l1 IH]; intros Hf Hx; simpl.
  - unfold bind. by rewrite Hx.
  - unfold bind at 1. rewrite (Hf y) by left.
    unfold bind. rewrite IH; [reflexivity| |done].
    intros z Hz. apply Hf. by right.
Qed.
End ArrayMap.

(** ** The mutators of the todo [App], by value *)

Section TodoAppFacts.
Import TodoApp.
Implicit Types (prev todos : list Todo.t) (id now : Z).

Lemma addTodo_run now todo prev :
  addTodo now todo prev = (Normal VUndefined, Spec.addTodo now todo prev).
Proof. reflexivity. Qed.

Lemma updatedTodo_run id todo prev :
  updatedTodo id todo prev =
  (Normal VUndefined, map (fun t => if (t.(Todo.id) =? id)%Z then todo else t) prev).
Proof.
  unfold updatedTodo, setTodos, bind, get. simpl.
  rewrite (array_map_pure _ (fun t => if (t.(Todo.id) =? id)%Z then todo else t)).
  - reflexivity.
  - intros t _. by destruct (_ =? _)%Z.
Qed.

Lemma toggleComplete_run id prev :
  toggleComplete id prev =
  (Normal VUndefined,
   map (fun t => if (t.(Todo.id) =? id)%Z then flip_completed t else t) prev).
Proof.
  unfold toggleComplete, setTodos, bind, get. simpl.
  rewrite (array_map_pure _ (fun t => if (t.(Todo.id) =? id)%Z then flip_completed t else t)).
  - reflexivity.
  - intros t _. by destruct (_ =? _)%Z.
Qed.

(** No record has the id: [map] copies the array, the state keeps its
    elements. *)
Lemma deleteTodo_miss id prev :
  id ∉ ids prev → deleteTodo id prev = (Normal VUndefined, prev).
Proof.
  intros Hid. unfold deleteTodo, setTodos, bind, get. simpl.
  rewrite (array_map_pure _ (fun t => t)).
  - by rewrite map_id.
  - intros t Ht. destruct (Z.eqb_spec t.(Todo.id) id) as [<-|]; [|done].
    exfalso. apply Hid. unfold ids. apply list_elem_of_fmap. eauto.
Qed.

(** Some record has the id: the callback reads [todo] and throws; the
    state is the one before the call. *)
Lemma deleteTodo_hit id prev :
  id ∈ ids prev → deleteTodo id prev = (Throw (ReferenceError "todo"), prev).
Proof.
  intros Hid. unfold ids in Hid.
  assert (∃ l1 t l2, prev = (l1 ++ t :: l2)%list ∧ t.(Todo.id) = id ∧
                     ∀ y, y ∈ l1 → y.(Todo.id) ≠ id) as (l1 & t & l2 & -> & Ht & Hl1).
  { clear -Hid. induction prev as [|t prev IH]; [by apply elem_of_nil in Hid|].
    destruct (decide (t.(Todo.id) = id)) as [Heq|Hne].
    - exists [], t, prev. split_and!; [done..|]. intros y Hy. by apply elem_of_nil in Hy.
    - simpl in Hid. apply elem_of_cons in Hid as [Hid|Hid]; [congruence|].
      destruct (IH Hid) as (l1 & t' & l2 & -> & Ht' & Hl1).
      exists (t :: l1), t', l2. split_and!; [done..|].
      intros y [->|Hy]%elem_of_cons; auto. }
  unfold deleteTodo, setTodos, bind, get. simpl.
  rewrite (array_map_throw _ (fun t => t) l1 t l2 (ReferenceError "todo")).
  - reflexivity.
  - intros y Hy. destruct (Z.eqb_spec y.(Todo.id) id); [|done]. by destruct (Hl1 y Hy).
  - by rewrite Ht, Z.eqb_refl.
Qed.

Lemma existsb_ids id todos :
  existsb (fun t => (t.(Todo.id) =? id)%Z) todos = false ↔ id ∉ ids todos.
Proof.
  unfold ids. induction todos as [|t todos IH]; simpl.
  - split; [|done]. intros _ H. by apply elem_of_nil in H.
  - rewrite orb_false_iff, IH, not_elem_of_cons, Z.eqb_neq.
    split; intros [H1 H2]; split; auto.
Qed.

End TodoAppFacts.

(** ** Deleting (C1) *)

(** C1, at the failing input [deleteTodo(1)] on
    [[{id: 2, "walk dog"}, {id: 1, "buy milk"}]]: the call throws
    ReferenceError for [todo] and the collection keeps both records, where
    the claim has it return the collection without record 1. On the absent
    id 3 the same collection comes back unchanged, as the claim says. *)
Theorem deleteTodo_present_id_throws :
  TodoApp.deleteTodo 1 [Scenario.dog 2; Scenario.milk 1]
  = (Throw (ReferenceError "todo"), [Scenario.dog 2; Scenario.milk 1]) ∧
  Spec.deleteTodo 1 [Scenario.dog 2; Scenario.milk 1] = [Scenario.dog 2] ∧
  TodoApp.deleteTodo 3 [Scenario.dog 2; Scenario.milk 1]
  = (Normal VUndefined, [Scenario.dog 2; Scenario.milk 1]).
Proof. split_and!; reflexivity. Qed.

(** ** Adding (C5) *)

Section Add.
Import TodoApp.

(** C5 as stated fails: the id is the clock reading, and a reading that
    repeats is neither fresh nor unique. Two consecutive adds on the empty
    collection within one millisecond give two records with the same id. *)
Lemma addTodo_same_clock_same_id :
  ∃ r2 r1,
    run [Add 7 Scenario.buy_milk; Add 7 Scenario.walk_dog] initial
    = (Normal VUndefined, [r2; r1]) ∧
    r2.(Todo.id) = r1.(Todo.id).
Proof. exists (Scenario.dog 7), (Scenario.milk 7). split; reflexivity. Qed.

(** C5, amended: [addTodo] returns [[newRecord, ...state]], where the new
    record carries the payload and, as id, the reading of [Date.now()];
    that id is new to the collection whenever the reading differs from
    every id in it; two consecutive adds on the empty collection at
    different readings, with [completed: false], give two records, most
    recent first, both not completed, with distinct ids. *)
Theorem addTodo_prepends_clock_id :
  (∀ now todo prev,
      addTodo now todo prev
      = (Normal VUndefined,
         {| Todo.id := now; Todo.todo := Todo.p_todo todo;
            Todo.completed := Todo.p_completed todo |} :: prev)) ∧
  (∀ now todo prev next,
      now ∉ ids prev → NoDup (ids prev) →
      addTodo now todo prev = (Normal VUndefined, next) →
      NoDup (ids next)) ∧
  (∀ now1 now2 text1 text2,
      now1 ≠ now2 →
      ∃ r2 r1,
        run [Add now1 {| Todo.p_todo := text1; Todo.p_completed := false |};
             Add now2 {| Todo.p_todo := text2; Todo.p_completed := false |}] initial
        = (Normal VUndefined, [r2; r1]) ∧
        length [r2; r1] = 2%nat ∧
        r2.(Todo.todo) = text2 ∧ r1.(Todo.todo) = text1 ∧
        r2.(Todo.completed) = false ∧ r1.(Todo.completed) = false ∧
        r2.(Todo.id) ≠ r1.(Todo.id)).
Proof.
  split_and!.
  - reflexivity.
  - intros now todo prev next Hnew Hprev Hrun.
    rewrite addTodo_run in Hrun. injection Hrun as <-.
    unfold Spec.addTodo, ids. simpl. by apply NoDup_cons.
  - intros now1 now2 text1 text2 Hne.
    eexists _, _. split; [reflexivity|]. simpl. split_and!; try reflexivity. congruence.
Qed.

Lemma addTodo_prepends_clock_id_witness :
  NoDup (ids (snd (addTodo 3 Scenario.walk_dog [Scenario.milk 2; Scenario.milk 1]))) ∧
  ∃ r2 r1,
    run [Add 1 Scenario.buy_milk; Add 2 Scenario.walk_dog] initial
    = (Normal VUndefined, [r2; r1]) ∧
    length [r2; r1] = 2%nat ∧
    r2.(Todo.todo) = "walk dog" ∧ r1.(Todo.todo) = "buy milk" ∧
    r2.(Todo.completed) = false ∧ r1.(Todo.completed) = false ∧
    r2.(Todo.id) ≠ r1.(Todo.id).
Proof.
  destruct addTodo_prepends_clock_id as (_ & Hfresh & Htwo). split.
  - apply (Hfresh 3 Scenario.walk_dog [Scenario.milk 2; Scenario.milk 1]).
    + compute_done.
    + compute_done.
    + reflexivity.
  - apply (Htwo 1 2 "buy milk" "walk dog"). discriminate.
Defined.
End Add.

(** ** Updating (C7) *)

Section Update.
Import TodoApp.

(** C7: [updatedTodo(id, patch)] returns; the collection keeps its length;
    at every position, a record whose id is [id] has become [patch] and a
    record with another id is the record that was there; when no record
    has the id, the collection is the one before. *)
Theorem updatedTodo_replaces_matching_only (id : Z) (patch : Todo.t) (prev : list Todo.t) :
  ∃ next,
    updatedTodo id patch prev = (Normal VUndefined, next) ∧
    length next = length prev ∧
    (∀ i t, prev !! i = Some t →
            next !! i = Some (if (t.(Todo.id) =? id)%Z then patch else t)) ∧
    (id ∉ ids prev → next = prev).
Proof.
  eexists. split; [apply updatedTodo_run|]. split_and!.
  - by rewrite length_map.
  - intros i t Hi.
    change (map ?f prev) with (f <$> prev). by rewrite list_lookup_fmap, Hi.
  - intros Hid. rewrite <- (map_id prev) at 2. apply map_ext_in.
    intros t Ht. destruct (Z.eqb_spec t.(Todo.id) id) as [<-|]; [|done].
    destruct Hid. unfold ids. apply list_elem_of_fmap. exists t. split; [done|].
    by apply list_elem_of_In.
Qed.

Lemma updatedTodo_replaces_matching_only_witness :
  ∃ next,
    updatedTodo 1 (Scenario.dog 1) [Scenario.milk 2; Scenario.milk 1]
    = (Normal VUndefined, next) ∧
    next !! 0%nat = Some (Scenario.milk 2) ∧
    next !! 1%nat = Some (Scenario.dog 1) ∧
    (snd (updatedTodo 5 (Scenario.dog 5) [Scenario.milk 2; Scenario.milk 1])
     = [Scenario.milk 2; Scenario.milk 1]).
Proof.
  destruct (updatedTodo_replaces_matching_only 1 (Scenario.dog 1)
              [Scenario.milk 2; Scenario.milk 1]) as (next & Hrun & _ & Hat & _).
  exists next. split_and!.
  - exact Hrun.
  - apply (Hat 0%nat (Scenario.milk 2)). reflexivity.
  - apply (Hat 1%nat (Scenario.milk 1)). reflexivity.
  - destruct (updatedTodo_replaces_matching_only 5 (Scenario.dog 5)
                [Scenario.milk 2; Scenario.milk 1]) as (next' & Hrun' & _ & _ & Hmiss).
    rewrite Hrun'. simpl. apply Hmiss. compute_done.
Defined.
End Update.

(** ** Toggling (C8) *)

Section Toggle.
Import TodoApp.

Lemma flip_completed_involutive t : flip_completed (flip_completed t) = t.
Proof. destruct t as [i x c]. unfold flip_completed. simpl. by rewrite negb_involutive. Qed.

(** C8: [toggleComplete(id)] returns; a record whose id is [id] has its
    [completed] negated and keeps its other fields, a record with another
    id is the record that was there; a second [toggleComplete(id)] gives
    back the collection before the first, and with it every flag. *)
Theorem toggleComplete_flips_and_is_involutive (id : Z) (prev : list Todo.t) :
  ∃ once,
    toggleComplete id prev = (Normal VUndefined, once) ∧
    toggleComplete id once = (Normal VUndefined, prev) ∧
    length once = length prev ∧
    ∀ i t, prev !! i = Some t →
      ∃ t', once !! i = Some t' ∧
            t'.(Todo.id) = t.(Todo.id) ∧ t'.(Todo.todo) = t.(Todo.todo) ∧
            (t.(Todo.id) = id → t'.(Todo.completed) = negb t.(Todo.completed)) ∧
            (t.(Todo.id) ≠ id → t' = t).
Proof.
  eexists. split; [apply toggleComplete_run|]. split_and!.
  - rewrite toggleComplete_run. f_equal.
    rewrite map_map. rewrite <- (map_id prev) at 2. apply map_ext.
    intros t. destruct (Z.eqb_spec t.(Todo.id) id) as [Heq|Hne]; simpl.
    + rewrite Heq, Z.eqb_refl. apply flip_completed_involutive.
    + by apply Z.eqb_neq in Hne as ->.
  - by rewrite length_map.
  - intros i t Hi. eexists. split.
    + change (map ?f prev) with (f <$> prev). by rewrite list_lookup_fmap, Hi.
    + destruct (Z.eqb_spec t.(Todo.id) id); simpl; split_and!; done.
Qed.

Lemma toggleComplete_flips_and_is_involutive_witness :
  ∃ once,
    toggleComplete 1 [Scenario.dog 2; Scenario.milk 1] = (Normal VUndefined, once) ∧
    toggleComplete 1 once = (Normal VUndefined, [Scenario.dog 2; Scenario.milk 1]) ∧
    (∃ t', once !! 1%nat = Some t' ∧ t'.(Todo.completed) = true) ∧
    once !! 0%nat = Some (Scenario.dog 2).
Proof.
  destruct (toggleComplete_flips_and_is_involutive 1 [Scenario.dog 2; Scenario.milk 1])
    as (once & Hrun & Hback & _ & Hat).
  exists once. split_and!; [exact Hrun | exact Hback | |].
  - destruct (Hat 1%nat (Scenario.milk 1) eq_refl) as (t' & Ht' & _ & _ & Hflip & _).
    exists t'. split; [exact Ht'|]. by rewrite Hflip.
  - destruct (Hat 0%nat (Scenario.dog 2) eq_refl) as (t' & Ht' & _ & _ & _ & Hsame).
    rewrite Ht'. f_equal. apply Hsame. discriminate.
Defined.
End Toggle.

(** ** Runs of adds and deletes (C2) *)

Section Runs.
Import TodoApp.

(** C2 as stated fails: two adds whose [Date.now()] readings coincide leave
    two records with one id in the collection. *)
Lemma run_duplicate_ids :
  ∃ todos,
    run [Add 5 Scenario.buy_milk; Add 5 Scenario.walk_dog] initial
    = (Normal VUndefined, todos) ∧
    ¬ NoDup (ids todos).
Proof.
  exists [Scenario.dog 5; Scenario.milk 5]. split; [reflexivity|].
  unfold ids; simpl. intros [Hin _]%NoDup_cons. apply Hin. left.
Qed.

Lemma run_cons e es todos :
  run (e :: es) todos =
  match handle e todos with
  | (Normal _, todos') => run es todos'
  | (Throw err, todos') => (Throw err, todos')
  end.
Proof. reflexivity. Qed.

(** What the specification's delete does: the records with the id are gone,
    the others stay. *)
Lemma Spec_deleteTodo_elem id todos t :
  t ∈ Spec.deleteTodo id todos ↔ t ∈ todos ∧ t.(Todo.id) ≠ id.
Proof. unfold Spec.deleteTodo. rewrite list_elem_of_filter. tauto. Qed.

Lemma Spec_deleteTodo_miss id todos : id ∉ ids todos → Spec.deleteTodo id todos = todos.
Proof.
  unfold Spec.deleteTodo, ids. induction todos as [|t todos IH]; [done|].
  simpl. intros [Hne Hid]%not_elem_of_cons.
  rewrite filter_cons_True by congruence. by rewrite IH.
Qed.

Lemma ids_records es : ids (records es) = clocks es.
Proof.
  induction es as [|[now todo|id] es IH]; simpl; [done| |done].
  unfold ids in *. simpl. by rewrite IH.
Qed.

(** From any collection: the run returns, with the added records in front
    of the collection, most recent first, and the wording of the
    specification computes the same collection. *)
Lemma run_from es : ∀ todos,
  deletes_miss es todos = true →
  run es todos = (Normal VUndefined, (reverse (records es) ++ todos)%list) ∧
  Spec.run es todos = (reverse (records es) ++ todos)%list.
Proof.
  induction es as [|[now todo|id] es IH]; intros todos Hmiss.
  - done.
  - simpl in Hmiss. rewrite run_cons.
    change (handle (Add now todo) todos) with (addTodo now todo todos).
    rewrite addTodo_run.
    destruct (IH _ Hmiss) as [Hrun Hspec].
    unfold Spec.addTodo. rewrite Hrun.
    change (Spec.run (Add now todo :: es) todos)
      with (Spec.run es (Spec.addTodo now todo todos)).
    unfold Spec.addTodo. rewrite Hspec.
    simpl. rewrite reverse_cons, <- app_assoc. done.
  - simpl in Hmiss. apply andb_true_iff in Hmiss as [Hid Hmiss].
    apply negb_true_iff, existsb_ids in Hid.
    rewrite run_cons.
    change (handle (Delete id) todos) with (deleteTodo id todos).
    rewrite (deleteTodo_miss _ _ Hid).
    destruct (IH _ Hmiss) as [Hrun Hspec].
    change (Spec.run (Delete id :: es) todos)
      with (Spec.run es (Spec.deleteTodo id todos)).
    rewrite (Spec_deleteTodo_miss _ _ Hid). done.
Qed.

(** C2, amended: for every sequence of [addTodo]/[deleteTodo] calls from
    the empty collection in which the [Date.now()] readings of the adds are
    pairwise distinct and every delete names an id that no record has at
    that moment, the run returns, the collection is the one the
    specification's add and filter compute, it holds exactly the added
    records, most recent first, and no two of them share an id. *)
Theorem run_distinct_clocks (es : list event) :
  NoDup (clocks es) →
  deletes_miss es initial = true →
  run es initial = (Normal VUndefined, Spec.run es initial) ∧
  Spec.run es initial = reverse (records es) ∧
  NoDup (ids (Spec.run es initial)).
Proof.
  intros Hclocks Hmiss.
  destruct (run_from es initial Hmiss) as [Hrun Hspec].
  unfold initial in *. rewrite app_nil_r in Hrun, Hspec.
  rewrite Hspec. split_and!; [done..|].
  unfold ids. change (map Todo.id ?l) with (Todo.id <$> l).
  rewrite fmap_reverse, reverse_Permutation.
  change (Todo.id <$> records es) with (ids (records es)). by rewrite ids_records.
Qed.

Lemma run_distinct_clocks_witness :
  run [Add 1 Scenario.buy_milk; Delete 9; Add 2 Scenario.walk_dog] initial
  = (Normal VUndefined, [Scenario.dog 2; Scenario.milk 1]) ∧
  NoDup (ids [Scenario.dog 2; Scenario.milk 1]).
Proof.
  destruct (run_distinct_clocks [Add 1 Scenario.buy_milk; Delete 9; Add 2 Scenario.walk_dog])
    as (Hrun & Hspec & Hnodup).
  - compute_done.
  - reflexivity.
  - split; [exact Hrun | exact Hnodup].
Defined.
End Runs.

(** ** The theme store (C9) *)

Section Theme.
Import ThemeSwitcher.

Lemma invoke_variant c mode :
  ∃ mode', App.invoke c mode = (Normal VUndefined, mode') ∧ App.declared_variant mode'.
Proof. destruct c; eexists; (split; [reflexivity|]); [by left | by right]. Qed.

Lemma run_variant cs : ∀ mode,
  App.declared_variant mode →
  ∃ mode', App.run cs mode = (Normal VUndefined, mode') ∧ App.declared_variant mode'.
Proof.
  induction cs as [|c cs IH]; intros mode Hmode.
  - by exists mode.
  - destruct (invoke_variant c mode) as (mode1 & Hc & Hmode1).
    destruct (IH mode1 Hmode1) as (mode' & Hrun & Hmode').
    exists mode'. split; [|done].
    simpl. unfold bind at 1. by rewrite Hc.
Qed.

(** C9: the state starts at ["light"]; [darkTheme()] makes it ["dark"],
    from any state; [lightTheme()] after it makes it ["light"] again; a
    consumer under the provider reads the state as [themeMode]; after any
    sequence of setter calls the state is ["light"] or ["dark"]. *)
Theorem theme_store_light_dark :
  App.initial = "light" ∧
  (∀ mode, App.darkTheme mode = (Normal VUndefined, "dark")) ∧
  (∀ mode, App.lightTheme mode = (Normal VUndefined, "light")) ∧
  App.run [App.Dark] App.initial = (Normal VUndefined, "dark") ∧
  App.run [App.Dark; App.Light] App.initial = (Normal VUndefined, "light") ∧
  (∀ mode s, ∃ v, Them.useTheme [App.provided mode] s = (Normal v, s) ∧
                 Them.themeMode v = mode) ∧
  (∀ cs, ∃ mode, App.run cs App.initial = (Normal VUndefined, mode) ∧
                 App.declared_variant mode).
Proof.
  split_and!; try reflexivity.
  - intros mode s. by eexists.
  - intros cs. apply run_variant. by left.
Qed.
End Theme.

(** ** The hooks outside every provider (C4, C10) *)

Section Hooks.
Import React.

(** C10: outside every [TodoProvider], [useTodo()] returns the default of
    [createContext]: its [todos] is not empty, it is the one placeholder
    record [{ id: 1, todo: " Todo msg", completed: false }]; each of its
    four mutators returns [undefined] and leaves every state as it is. *)
Theorem useTodo_default_value (S : Type) (s : S) :
  ∃ v : TodoContext.Value S,
    TodoContext.useTodo [] s = (Normal v, s) ∧
    TodoContext.todos v ≠ [] ∧
    TodoContext.todos v
    = [ {| Todo.id := 1; Todo.todo := " Todo msg"; Todo.completed := false |} ] ∧
    (∀ todo s', TodoContext.addTodo v todo s' = (Normal VUndefined, s')) ∧
    (∀ id todo s', TodoContext.updatedTodo v id todo s' = (Normal VUndefined, s')) ∧
    (∀ id s', TodoContext.deleteTodo v id s' = (Normal VUndefined, s')) ∧
    (∀ id s', TodoContext.toggleComplete v id s' = (Normal VUndefined, s')).
Proof. eexists. split; [reflexivity|]. split_and!; done. Qed.



(** The consumers of miniContext destructure what the hook returns: outside
    the provider that is where a TypeError arises, after the hook has
    returned. *)
Remark Login_outside_provider (S : Type) (s : S) :
  ∃ msg, fst (MiniContext.Login (S:=S) [] s) = Throw (TypeError msg).
Proof. by eexists. Qed.
End Hooks.

(** ** The rate lookup (C3) *)

Section Rates.
Import CurrencyConverter.

(** A rejected [fetch] (network failure): the data is [{}]. *)
Lemma useCurrencyInfo_network_error e data :
  useCurrencyInfo (Throw e) data = Normal (VObj []).
Proof. reflexivity. Qed.

(** A body that is not JSON, whatever the status: the data is [{}]. *)
Lemma useCurrencyInfo_malformed_body st e data :
  useCurrencyInfo (Normal {| status := st; json := Throw e |}) data = Normal (VObj []).
Proof. reflexivity. Qed.

(** A JSON body, whatever the status: the data is its [rates] property,
    [undefined] when it has none. *)
Lemma useCurrencyInfo_json_object st fields data :
  useCurrencyInfo (Normal {| status := st; json := Normal (VObj fields) |}) data
  = Normal (default VUndefined (assoc "rates" fields)).
Proof. reflexivity. Qed.

(** Nothing escapes the hook. *)
Lemma useCurrencyInfo_returns fetched data :
  ∃ data', useCurrencyInfo fetched data = Normal data'.
Proof.
  destruct fetched as [[st [body|e]]|e]; [|by eexists..].
  destruct body; by eexists.
Qed.

(** C3, at the failing input of a 404 response whose body is the JSON
    object [{"result": "error", "error_type": "unsupported_code"}]: the
    promise chain never reaches [catch], [setData(res.rates)] stores
    [undefined], and the hook returns [undefined], where the claim has the
    empty mapping. *)
Theorem useCurrencyInfo_http_error_gives_undefined :
  let res := {| status := 404;
                json := Normal (VObj [("result", VStr "error");
                                      ("error_type", VStr "unsupported_code")]) |} in
  ok res = false ∧
  useCurrencyInfo (Normal res) initial = Normal VUndefined ∧
  VUndefined ≠ VObj [].
Proof. split_and!; done. Qed.
End Rates.


(** ** The mutators by reference (C6) *)

Section Ref.
Import TodoAppRef.
Implicit Types (s : state) (a l : positive) (elems : list positive) (ts : list Todo.t).

Lemma preserved_refl s : preserved s s.
Proof. by split. Qed.

Lemma preserved_trans s1 s2 s3 : preserved s1 s2 → preserved s2 s3 → preserved s1 s3.
Proof. intros [??] [??]. split; by etrans. Qed.

Lemma fresh_object s : objects s !! fresh (dom (objects s)) = None.
Proof. apply not_elem_of_dom, is_fresh. Qed.

Lemma fresh_array s : arrays s !! fresh (dom (arrays s)) = None.
Proof. apply not_elem_of_dom, is_fresh. Qed.

Lemma contents_Some s a ts :
  contents s a = Some ts ↔
  ∃ elems, arrays s !! a = Some elems ∧ Forall2 (fun l o => objects s !! l = Some o) elems ts.
Proof.
  unfold contents. split.
  - intros H. destruct (arrays s !! a) as [elems|]; [|done]. simpl in H.
    exists elems. split; [done|]. by apply mapM_Some.
  - intros (elems & -> & H). simpl. by apply mapM_Some.
Qed.

Lemma deref_weaken (m m' : gmap positive Todo.t) elems ts :
  m ⊆ m' →
  Forall2 (fun l o => m !! l = Some o) elems ts →
  Forall2 (fun l o => m' !! l = Some o) elems ts.
Proof.
  intros Hsub H. eapply Forall2_impl; [exact H|].
  intros l o Hl. simpl in *. by eapply lookup_weaken.
Qed.

Lemma contents_preserved s s' a ts :
  preserved s s' → contents s a = Some ts → contents s' a = Some ts.
Proof.
  intros [Hobj Harr] (elems & Ha & Hts)%contents_Some. apply contents_Some.
  exists elems. split; [by eapply lookup_weaken|by eapply deref_weaken].
Qed.

(** The array [map] returns, or an array literal, once [todos] is set to it. *)
Lemma new_array_new_collection s1 s elems prev next :
  preserved s s1 → todos s1 = todos s →
  contents s (todos s) = Some prev →
  Forall2 (fun l o => objects s1 !! l = Some o) elems next →
  ∃ s', (let! r := new_array elems in write_todos r ;; ret VUndefined) s1
        = (Normal VUndefined, s') ∧
        new_collection s s' prev next ∧ arrays s' !! todos s' = Some elems.
Proof.
  intros Hpre Htodos Hprev Hnext.
  eexists. split; [reflexivity|]. simpl.
  pose proof (fresh_array s1) as Hfresh.
  assert (preserved s1 (State (objects s1)
            (<[fresh (dom (arrays s1)) := elems]> (arrays s1)) (fresh (dom (arrays s1)))))
    as Hstep.
  { split; simpl; [done|]. by apply insert_subseteq. }
  split; [|simpl; by rewrite lookup_insert_eq].
  split_and!; simpl.
  - by eapply preserved_trans.
  - destruct Hpre as [_ Harr]. destruct (arrays s !! _) eqn:E; [|done].
    eapply lookup_weaken in E; [|exact Harr]. congruence.
  - eapply contents_preserved; [eapply preserved_trans; [exact Hpre|exact Hstep]|].
    by simpl.
  - apply contents_Some. exists elems. simpl. by rewrite lookup_insert_eq.
Qed.
Lemma setTodos_map_method callback s elems mapped s1 :
  arrays s !! todos s = Some elems →
  array_map callback elems s = (Normal mapped, s1) →
  setTodos (fun prev => map_method prev callback) s
  = (let! r := new_array mapped in write_todos r ;; ret VUndefined) s1.
Proof.
  intros Harr Hmap. unfold setTodos, map_method, bind, read_todos, read_array.
  by rewrite Harr, Hmap.
Qed.

Lemma setTodos_map_method_throw callback s elems e s1 :
  arrays s !! todos s = Some elems →
  array_map callback elems s = (Throw e, s1) →
  setTodos (fun prev => map_method prev callback) s = (Throw e, s1).
Proof.
  intros Harr Hmap. unfold setTodos, map_method, bind, read_todos, read_array.
  by rewrite Harr, Hmap.
Qed.

(** [addTodo]: a new record, a new array with it in front. *)
Lemma ref_addTodo now todo s prev :
  contents s (todos s) = Some prev →
  ∃ s', addTodo now todo s = (Normal VUndefined, s') ∧
        new_collection s s' prev (snd (TodoApp.addTodo now todo prev)).
Proof.
  intros Hprev. pose proof Hprev as (elems & Harr & Hts)%contents_Some.
  set (o := {| Todo.id := now; Todo.todo := Todo.p_todo todo;
               Todo.completed := Todo.p_completed todo |}).
  set (l := fresh (dom (objects s))).
  set (s1 := State (<[l := o]> (objects s)) (arrays s) (todos s)).
  assert (preserved s s1) as Hpre.
  { split; simpl; [|done]. apply insert_subseteq, fresh_object. }
  destruct (new_array_new_collection s1 s (l :: elems) prev (o :: prev))
    as (s' & Hrun & Hnew & _); [done..| |].
  - constructor; [apply lookup_insert_eq|].
    eapply deref_weaken; [|exact Hts]. apply Hpre.
  - exists s'. split; [|exact Hnew]. rewrite <- Hrun.
    unfold addTodo, setTodos, bind, read_todos, new_object, read_array. simpl.
    fold l. by rewrite Harr.
Qed.

(** [updatedTodo]: no record is written, the new array holds the address of
    the patch where the id matched and the old addresses elsewhere. *)
Lemma ref_updatedTodo id todo patch s prev :
  contents s (todos s) = Some prev →
  objects s !! todo = Some patch →
  ∃ s', updatedTodo id todo s = (Normal VUndefined, s') ∧
        new_collection s s' prev (snd (TodoApp.updatedTodo id patch prev)) ∧
        objects s' = objects s ∧
        ∃ elems elems',
          arrays s !! todos s = Some elems ∧ arrays s' !! todos s' = Some elems' ∧
          Forall2 (fun l l' => ∀ o, objects s !! l = Some o →
                                    l' = if (o.(Todo.id) =? id)%Z then todo else l)
                  elems elems'.
Proof.
  intros Hprev Hpatch. pose proof Hprev as (elems & Harr & Hts)%contents_Some.
  set (g := fun l => match objects s !! l with
                     | Some o => if (o.(Todo.id) =? id)%Z then todo else l
                     | None => l
                     end).
  destruct (new_array_new_collection s s (g <$> elems) prev
              (snd (TodoApp.updatedTodo id patch prev)))
    as (s' & Hrun & Hnew & Hnext); [apply preserved_refl|done..| |].
  - rewrite updatedTodo_run. simpl. apply Forall2_fmap.
    eapply Forall2_impl; [exact Hts|]. intros l o Hl. unfold g. simpl. rewrite Hl.
    by destruct (_ =? _)%Z.
  - exists s'. split_and!; [|exact Hnew| |].
    + rewrite <- Hrun. apply (setTodos_map_method _ _ elems); [done|].
      apply (array_map_pure _ g). intros l Hin.
      apply list_elem_of_lookup in Hin as [i Hi].
      destruct (Forall2_lookup_l _ _ _ i l Hts Hi) as (o & _ & Hl).
      unfold bind, read_object, g. rewrite Hl. by destruct (_ =? _)%Z.
    + injection Hrun as <-. done.
    + exists elems, (g <$> elems). split_and!; [done..|].
      apply Forall2_fmap_r, Forall_Forall2_diag, Forall_forall.
      intros l _ o Hl. unfold g. by rewrite Hl.
Qed.
(** The callback of [deleteTodo] over the array: it only reads, and throws
    at the first record with the id. *)
Lemma deleteTodo_array_map id s elems ts :
  Forall2 (fun l o => objects s !! l = Some o) elems ts →
  array_map (fun prevTodo =>
               let! o := read_object prevTodo in
               if (o.(Todo.id) =? id)%Z then throw (ReferenceError "todo") else ret prevTodo)
            elems s
  = if existsb (fun t => (t.(Todo.id) =? id)%Z) ts
    then (Throw (ReferenceError "todo"), s)
    else (Normal elems, s).
Proof.
  induction 1 as [|l o elems ts Hl _ IH]; [done|].
  simpl. unfold bind at 1. unfold bind at 1. unfold read_object at 1. rewrite Hl.
  destruct (_ =? _)%Z; [done|]. simpl.
  unfold bind at 1. rewrite IH. by destruct (existsb _ _).
Qed.

(** [deleteTodo] with an id that no record has: a new array with the old
    addresses. *)
Lemma ref_deleteTodo_miss id s prev :
  contents s (todos s) = Some prev →
  id ∉ TodoApp.ids prev →
  ∃ s', deleteTodo id s = (Normal VUndefined, s') ∧
        new_collection s s' prev (snd (TodoApp.deleteTodo id prev)).
Proof.
  intros Hprev Hid. pose proof Hprev as (elems & Harr & Hts)%contents_Some.
  rewrite (deleteTodo_miss _ _ Hid). simpl.
  destruct (new_array_new_collection s s elems prev prev)
    as (s' & Hrun & Hnew & _); [apply preserved_refl|done..|].
  exists s'. split; [|exact Hnew]. rewrite <- Hrun.
  apply (setTodos_map_method _ _ elems); [done|].
  rewrite (deleteTodo_array_map _ _ _ _ Hts).
  apply existsb_ids in Hid. by rewrite Hid.
Qed.

(** [deleteTodo] with an id that a record has: the throw, in the state of
    before the call; no array has been made and [todos] is the old one. *)
Lemma ref_deleteTodo_hit id s prev :
  contents s (todos s) = Some prev →
  id ∈ TodoApp.ids prev →
  deleteTodo id s = (Throw (ReferenceError "todo"), s) ∧
  fst (deleteTodo id s) = fst (TodoApp.deleteTodo id prev).
Proof.
  intros (elems & Harr & Hts)%contents_Some Hid.
  rewrite (deleteTodo_hit _ _ Hid). simpl.
  assert (deleteTodo id s = (Throw (ReferenceError "todo"), s)) as ->; [|done].
  apply (setTodos_map_method_throw _ _ elems); [done|].
  rewrite (deleteTodo_array_map _ _ _ _ Hts).
  destruct (existsb _ prev) eqn:E; [done|]. by apply existsb_ids in E.
Qed.

(** The callback of [toggleComplete] over the array: a new record for each
    one with the id, the old address for the others. *)
Lemma toggleComplete_array_map id elems : ∀ ts s1,
  Forall2 (fun l o => objects s1 !! l = Some o) elems ts →
  ∃ mapped s2,
    array_map (fun prevTodo =>
                 let! o := read_object prevTodo in
                 if (o.(Todo.id) =? id)%Z
                 then new_object {| Todo.id := o.(Todo.id); Todo.todo := o.(Todo.todo);
                                    Todo.completed := negb o.(Todo.completed) |}
                 else ret prevTodo)
              elems s1
    = (Normal mapped, s2) ∧
    preserved s1 s2 ∧ arrays s2 = arrays s1 ∧ todos s2 = todos s1 ∧
    Forall2 (fun l o => objects s2 !! l = Some o) mapped
            (map (fun t => if (t.(Todo.id) =? id)%Z then flip_completed t else t) ts) ∧
    Forall2 (fun l l' => ∀ o, objects s1 !! l = Some o → o.(Todo.id) ≠ id → l' = l)
            elems mapped.
Proof.
  induction elems as [|l elems IH]; intros ts s1 Hts.
  - apply Forall2_nil_inv_l in Hts as ->. exists [], s1.
    split_and!; first [done | apply preserved_refl].
  - apply Forall2_cons_inv_l in Hts as (o & ts' & Hl & Hts' & ->).
    simpl. unfold bind at 1. unfold bind at 1. unfold read_object at 1. rewrite Hl.
    destruct (Z.eqb_spec o.(Todo.id) id) as [Heq|Hne].
    + set (l' := fresh (dom (objects s1))).
      set (s1' := State (<[l' := flip_completed o]> (objects s1)) (arrays s1) (todos s1)).
      assert (preserved s1 s1') as Hpre.
      { split; simpl; [|done]. apply insert_subseteq, fresh_object. }
      destruct (IH ts' s1') as (mapped & s2 & Hmap & Hpre2 & Harr & Htodos & Hderef & Hshare).
      { eapply deref_weaken; [apply Hpre|done]. }
      exists (l' :: mapped), s2.
      change (new_object _ s1) with (Normal l', s1').
      unfold bind at 1. rewrite Hmap. split_and!; try done.
      * by eapply preserved_trans.
      * constructor; [|done]. eapply lookup_weaken; [|apply Hpre2].
        apply lookup_insert_eq.
      * constructor; [congruence|].
        eapply Forall2_impl; [exact Hshare|]. intros x x' Hx o' Ho'. apply Hx.
        eapply lookup_weaken; [exact Ho'|apply Hpre].
    + destruct (IH ts' s1 Hts') as (mapped & s2 & Hmap & Hpre2 & Harr & Htodos & Hderef & Hshare).
      exists (l :: mapped), s2. unfold ret at 1.
      unfold bind at 1. rewrite Hmap. split_and!; try done.
      * constructor; [|done]. eapply lookup_weaken; [exact Hl|apply Hpre2].
      * constructor; [done|done].
Qed.

(** [toggleComplete]: the records of the old collection keep their flag; the
    new array holds new records where the id matched and the old addresses
    elsewhere. *)
Lemma ref_toggleComplete id s prev :
  contents s (todos s) = Some prev →
  ∃ s', toggleComplete id s = (Normal VUndefined, s') ∧
        new_collection s s' prev (snd (TodoApp.toggleComplete id prev)) ∧
        ∃ elems elems',
          arrays s !! todos s = Some elems ∧ arrays s' !! todos s' = Some elems' ∧
          Forall2 (fun l l' => ∀ o, objects s !! l = Some o → o.(Todo.id) ≠ id → l' = l)
                  elems elems'.
Proof.
  intros Hprev. pose proof Hprev as (elems & Harr & Hts)%contents_Some.
  destruct (toggleComplete_array_map id elems prev s Hts)
    as (mapped & s1 & Hmap & Hpre & Harr1 & Htodos & Hderef & Hshare).
  destruct (new_array_new_collection s1 s mapped prev
              (snd (TodoApp.toggleComplete id prev)))
    as (s' & Hrun & Hnew & Hnext); [done..| |].
  - by rewrite toggleComplete_run.
  - exists s'. split_and!; [|exact Hnew|by exists elems, mapped].
    rewrite <- Hrun. by apply (setTodos_map_method _ _ elems).
Qed.

(** The collection [useState([])] starts from. *)
Lemma ref_initial : contents initial (todos initial) = Some TodoApp.initial.
Proof. reflexivity. Qed.

(** C6, at the failing input [deleteTodo(1)] on the collection
    [[{id: 2, "walk dog"}, {id: 1, "buy milk"}]]: the input array and its
    records are as before, as the claim says, but the call throws
    ReferenceError for [todo]; no array is made and [todos] still names the
    input array, where the claim has a new collection as the result. The
    other three mutators, and [deleteTodo(3)], do make one there. *)
Theorem deleteTodo_present_id_no_new_collection :
  contents two_todos (todos two_todos) = Some [Scenario.dog 2; Scenario.milk 1] ∧
  deleteTodo 1 two_todos = (Throw (ReferenceError "todo"), two_todos) ∧
  (∃ s', deleteTodo 3 two_todos = (Normal VUndefined, s') ∧
         new_collection two_todos s' [Scenario.dog 2; Scenario.milk 1]
                        [Scenario.dog 2; Scenario.milk 1]) ∧
  (∃ s', toggleComplete 1 two_todos = (Normal VUndefined, s') ∧
         new_collection two_todos s' [Scenario.dog 2; Scenario.milk 1]
                        [Scenario.dog 2; flip_completed (Scenario.milk 1)]) ∧
  (∃ s', addTodo 3 Scenario.buy_milk two_todos = (Normal VUndefined, s') ∧
         new_collection two_todos s' [Scenario.dog 2; Scenario.milk 1]
                        [Scenario.milk 3; Scenario.dog 2; Scenario.milk 1]).
Proof.
  assert (contents two_todos (todos two_todos) = Some [Scenario.dog 2; Scenario.milk 1])
    as Hprev by (vm_compute; reflexivity).
  split_and!.
  - exact Hprev.
  - apply (ref_deleteTodo_hit 1 _ _ Hprev). compute_done.
  - apply (ref_deleteTodo_miss 3 _ _ Hprev). compute_done.
  - destruct (ref_toggleComplete 1 _ _ Hprev) as (s' & Hrun & Hnew & _). by exists s'.
  - apply (ref_addTodo 3 Scenario.buy_milk _ _ Hprev).
Qed.
End Ref.

(** * Further properties of the code *)

(** ** How the mutators compose *)

Section Compose.
Import TodoApp.

Lemma flip_completed_id t : Todo.id (flip_completed t) = Todo.id t.
Proof. reflexivity. Qed.

(** X1: [updatedTodo(id, patch)] is idempotent, whatever id the patch
    carries: a second call with the same arguments returns the collection the
    first call produced. *)
Theorem updatedTodo_idempotent (id : Z) (patch : Todo.t) (prev : list Todo.t) :
  ∃ next,
    updatedTodo id patch prev = (Normal VUndefined, next) ∧
    updatedTodo id patch next = (Normal VUndefined, next).
Proof.
  eexists. split; [apply updatedTodo_run|].
  rewrite updatedTodo_run. f_equal. rewrite map_map. apply map_ext.
  intros t. destruct (t.(Todo.id) =? id)%Z eqn:E; [|by rewrite E].
  by destruct (patch.(Todo.id) =? id)%Z.
Qed.

(** X2: [toggleComplete] never changes the ids of the collection, their
    order or their number, and neither does [updatedTodo] when the patch
    carries the id it is filed under, as the patch of [TodoItem] does. *)
Theorem toggle_and_same_id_update_keep_ids (id : Z) (patch : Todo.t) (prev : list Todo.t) :
  patch.(Todo.id) = id →
  (∃ next, updatedTodo id patch prev = (Normal VUndefined, next) ∧ ids next = ids prev) ∧
  (∃ next, toggleComplete id prev = (Normal VUndefined, next) ∧ ids next = ids prev).
Proof.
  intros Hid. split; eexists; (split; [first [apply updatedTodo_run|apply toggleComplete_run]|]).
  - unfold ids. rewrite map_map. apply map_ext.
    intros t. destruct (Z.eqb_spec t.(Todo.id) id); [congruence|done].
  - unfold ids. rewrite map_map. apply map_ext.
    intros t. by destruct (t.(Todo.id) =? id)%Z.
Qed.

Lemma toggle_and_same_id_update_keep_ids_witness :
  (∃ next, updatedTodo 1 (Scenario.dog 1) [Scenario.milk 2; Scenario.milk 1]
           = (Normal VUndefined, next) ∧ ids next = [2; 1]) ∧
  (∃ next, toggleComplete 1 [Scenario.milk 2; Scenario.milk 1]
           = (Normal VUndefined, next) ∧ ids next = [2; 1]).
Proof.
  apply (toggle_and_same_id_update_keep_ids 1 (Scenario.dog 1)
           [Scenario.milk 2; Scenario.milk 1]).
  reflexivity.
Defined.

(** X3: two [toggleComplete] calls commute: toggling [id1] then [id2] gives
    the collection that toggling [id2] then [id1] gives, also when the two
    ids are the same or shared by several records. *)
Theorem toggleComplete_commutes (id1 id2 : Z) (prev : list Todo.t) :
  ∃ after1 after2 both,
    toggleComplete id1 prev = (Normal VUndefined, after1) ∧
    toggleComplete id2 after1 = (Normal VUndefined, both) ∧
    toggleComplete id2 prev = (Normal VUndefined, after2) ∧
    toggleComplete id1 after2 = (Normal VUndefined, both).
Proof.
  eexists _, _, _. split_and!; [apply toggleComplete_run..|].
  rewrite toggleComplete_run. f_equal. rewrite !map_map. apply map_ext.
  intros t.
  destruct (t.(Todo.id) =? id1)%Z eqn:E1, (t.(Todo.id) =? id2)%Z eqn:E2;
    rewrite ?flip_completed_id, ?E1, ?E2; reflexivity.
Qed.

(** X4: in a collection whose ids are pairwise distinct, [toggleComplete] and
    [updatedTodo] change one position and no other: with the record of id
    [id] at index [i], the new collection is the old one with index [i]
    replaced, by the record with its flag negated or by the patch. *)
Theorem unique_id_changes_one_position (id : Z) (i : nat) (t patch : Todo.t)
    (prev : list Todo.t) :
  NoDup (ids prev) →
  prev !! i = Some t →
  t.(Todo.id) = id →
  toggleComplete id prev = (Normal VUndefined, <[i := flip_completed t]> prev) ∧
  updatedTodo id patch prev = (Normal VUndefined, <[i := patch]> prev).
Proof.
  intros Hnodup Hi Hid.
  assert (∀ (f : Todo.t → Todo.t),
            map (fun u => if (u.(Todo.id) =? id)%Z then f u else u) prev = <[i := f t]> prev)
    as Hone.
  { intros f. apply list_eq. intros j.
    change (map ?g prev) with (g <$> prev). rewrite list_lookup_fmap.
    destruct (decide (i = j)) as [<-|Hne].
    - rewrite list_lookup_insert_eq by (by eapply lookup_lt_Some).
      rewrite Hi. simpl. by rewrite Hid, Z.eqb_refl.
    - rewrite list_lookup_insert_ne by done.
      destruct (prev !! j) as [u|] eqn:Hj; [|done]. simpl.
      destruct (Z.eqb_spec u.(Todo.id) id) as [Hu|]; [|done].
      destruct Hne. eapply (NoDup_lookup (ids prev) i j id); [done|..];
        unfold ids; change (map ?g prev) with (g <$> prev);
        rewrite list_lookup_fmap; [by rewrite Hi; simpl; rewrite Hid
                                  | by rewrite Hj; simpl; rewrite Hu]. }
  split.
  - rewrite toggleComplete_run. f_equal. apply (Hone flip_completed).
  - rewrite updatedTodo_run. f_equal. apply (Hone (fun _ => patch)).
Qed.

Lemma unique_id_changes_one_position_witness :
  toggleComplete 1 [Scenario.dog 2; Scenario.milk 1]
  = (Normal VUndefined, [Scenario.dog 2; flip_completed (Scenario.milk 1)]) ∧
  updatedTodo 1 (Scenario.dog 1) [Scenario.dog 2; Scenario.milk 1]
  = (Normal VUndefined, [Scenario.dog 2; Scenario.dog 1]).
Proof.
  apply (unique_id_changes_one_position 1 1 (Scenario.milk 1) (Scenario.dog 1)
           [Scenario.dog 2; Scenario.milk 1]).
  - compute_done.
  - reflexivity.
  - reflexivity.
Defined.

(** X5: [deleteTodo] never removes a record. The call returns [undefined]
    for every id. When some record has the id, the render that follows
    throws the ReferenceError of the unbound [todo] and the root is
    unmounted; when no record has it, [App] renders the same records. For
    every item that [App] renders, the delete button therefore takes the
    whole list down instead of removing the item. *)
Theorem deleteTodo_call_never_removes (id : Z) (todos : list Todo.t) :
  fst (TodoRoot.call (deleteTodo id) (TodoRoot.Mounted todos)) = VUndefined ∧
  (id ∈ ids todos →
   snd (TodoRoot.call (deleteTodo id) (TodoRoot.Mounted todos))
   = TodoRoot.Unmounted (ReferenceError "todo")) ∧
  (id ∉ ids todos →
   snd (TodoRoot.call (deleteTodo id) (TodoRoot.Mounted todos)) = TodoRoot.Mounted todos) ∧
  (∀ i t, todos !! i = Some t →
          TodoRoot.call (TodoItem.delete_onClick deleteTodo t) (TodoRoot.Mounted todos)
          = (VUndefined, TodoRoot.Unmounted (ReferenceError "todo"))).
Proof.
  unfold TodoRoot.call. split_and!.
  - by destruct (deleteTodo id todos) as [[v|e] next].
  - intros Hin. by rewrite (deleteTodo_hit _ _ Hin).
  - intros Hout. by rewrite (deleteTodo_miss _ _ Hout).
  - intros i t Hi. unfold TodoItem.delete_onClick.
    rewrite (deleteTodo_hit (Todo.id t) todos); [done|].
    unfold ids. apply list_elem_of_fmap. exists t. split; [done|].
    by eapply list_elem_of_lookup_2.
Qed.
End Compose.

Lemma deleteTodo_call_never_removes_witness :
  snd (TodoRoot.call (TodoApp.deleteTodo 1)
         (TodoRoot.Mounted [Scenario.dog 2; Scenario.milk 1]))
  = TodoRoot.Unmounted (ReferenceError "todo") ∧
  snd (TodoRoot.call (TodoApp.deleteTodo 3)
         (TodoRoot.Mounted [Scenario.dog 2; Scenario.milk 1]))
  = TodoRoot.Mounted [Scenario.dog 2; Scenario.milk 1] ∧
  TodoRoot.call (TodoItem.delete_onClick TodoApp.deleteTodo (Scenario.milk 1))
    (TodoRoot.Mounted [Scenario.dog 2; Scenario.milk 1])
  = (VUndefined, TodoRoot.Unmounted (ReferenceError "todo")).
Proof.
  split_and!.
  - apply (deleteTodo_call_never_removes 1 [Scenario.dog 2; Scenario.milk 1]). compute_done.
  - apply (deleteTodo_call_never_removes 3 [Scenario.dog 2; Scenario.milk 1]). compute_done.
  - destruct (deleteTodo_call_never_removes 1 [Scenario.dog 2; Scenario.milk 1])
      as (_ & _ & _ & Hbutton).
    apply (Hbutton 1%nat (Scenario.milk 1)). reflexivity.
Defined.

(** ** The form and the items *)

Section Components.
Import TodoApp.

(** X6: the form under the [App]'s provider: an empty input is not
    submitted (nothing is added, the input stays); any other input is added
    in front as a record that is not completed, with the clock reading as id,
    and the input is cleared. *)
Theorem TodoForm_add_checks_input (now : Z) (input : string) (todos : list Todo.t) :
  (input = "" → TodoForm.add (addTodo now) input todos = (Normal "", todos)) ∧
  (input ≠ "" →
   TodoForm.add (addTodo now) input todos
   = (Normal "", {| Todo.id := now; Todo.todo := input; Todo.completed := false |} :: todos)).
Proof.
  unfold TodoForm.add. destruct (String.eqb_spec input "") as [->|Hne].
  - split; [done|]. intros H. by destruct H.
  - split; [intros H; by destruct Hne|]. intros _. reflexivity.
Qed.

Lemma TodoForm_add_checks_input_witness :
  TodoForm.add (addTodo 3) "" [Scenario.milk 1] = (Normal "", [Scenario.milk 1]) ∧
  TodoForm.add (addTodo 3) "walk dog" [Scenario.milk 1]
  = (Normal "", [Scenario.dog 3; Scenario.milk 1]).
Proof.
  split.
  - apply (TodoForm_add_checks_input 3 "" [Scenario.milk 1]). reflexivity.
  - apply (TodoForm_add_checks_input 3 "walk dog" [Scenario.milk 1]). discriminate.
Defined.

(** X7: the edit/save button of the item rendered at index [i]. On a
    completed record it does nothing. On a record that is not completed it
    first opens the edit mode and leaves the collection; in edit mode it
    saves: the record at [i] gets the typed text and keeps its id and its
    flag, the records with other ids and the list of ids are as before, and
    the edit mode is closed. The typed text is not checked: it may be
    empty. *)
Theorem TodoItem_edit_button (i : nat) (t : Todo.t) (st : TodoItem.state)
    (todos : list Todo.t) :
  todos !! i = Some t →
  (t.(Todo.completed) = true →
   TodoItem.edit_onClick updatedTodo t st todos = (Normal st, todos)) ∧
  (t.(Todo.completed) = false → TodoItem.isTodoEditable st = false →
   TodoItem.edit_onClick updatedTodo t st todos
   = (Normal {| TodoItem.isTodoEditable := true; TodoItem.todoMsg := TodoItem.todoMsg st |},
      todos)) ∧
  (t.(Todo.completed) = false → TodoItem.isTodoEditable st = true →
   ∃ todos',
     TodoItem.edit_onClick updatedTodo t st todos
     = (Normal {| TodoItem.isTodoEditable := false; TodoItem.todoMsg := TodoItem.todoMsg st |},
        todos') ∧
     todos' !! i = Some {| Todo.id := t.(Todo.id); Todo.todo := TodoItem.todoMsg st;
                           Todo.completed := t.(Todo.completed) |} ∧
     ids todos' = ids todos ∧
     ∀ j u, todos !! j = Some u → u.(Todo.id) ≠ t.(Todo.id) → todos' !! j = Some u).
Proof.
  intros Hi. unfold TodoItem.edit_onClick. split_and!.
  - by intros ->.
  - by intros -> ->.
  - intros Hc He. rewrite Hc, He.
    unfold TodoItem.editTodo, bind at 1. rewrite updatedTodo_run.
    eexists. split; [reflexivity|]. split_and!.
    + change (map ?f todos) with (f <$> todos). rewrite list_lookup_fmap, Hi. simpl.
      by rewrite Z.eqb_refl, Hc.
    + unfold ids. rewrite map_map. apply map_ext. intros u.
      by destruct (Z.eqb_spec u.(Todo.id) t.(Todo.id)).
    + intros j u Hj Hne. change (map ?f todos) with (f <$> todos).
      rewrite list_lookup_fmap, Hj. simpl. by apply Z.eqb_neq in Hne as ->.
Qed.

Lemma TodoItem_edit_button_witness :
  TodoItem.edit_onClick updatedTodo (Scenario.milk 1)
    {| TodoItem.isTodoEditable := false; TodoItem.todoMsg := "buy oat milk" |}
    [Scenario.dog 2; Scenario.milk 1]
  = (Normal {| TodoItem.isTodoEditable := true; TodoItem.todoMsg := "buy oat milk" |},
     [Scenario.dog 2; Scenario.milk 1]) ∧
  ∃ todos',
    TodoItem.edit_onClick updatedTodo (Scenario.milk 1)
      {| TodoItem.isTodoEditable := true; TodoItem.todoMsg := "buy oat milk" |}
      [Scenario.dog 2; Scenario.milk 1]
    = (Normal {| TodoItem.isTodoEditable := false; TodoItem.todoMsg := "buy oat milk" |},
       todos') ∧
    todos' !! 1%nat = Some {| Todo.id := 1; Todo.todo := "buy oat milk";
                              Todo.completed := false |} ∧
    todos' !! 0%nat = Some (Scenario.dog 2).
Proof.
  split.
  - destruct (TodoItem_edit_button 1 (Scenario.milk 1)
                {| TodoItem.isTodoEditable := false; TodoItem.todoMsg := "buy oat milk" |}
                [Scenario.dog 2; Scenario.milk 1] eq_refl) as (_ & Hopen & _).
    exact (Hopen eq_refl eq_refl).
  - destruct (TodoItem_edit_button 1 (Scenario.milk 1)
                {| TodoItem.isTodoEditable := true; TodoItem.todoMsg := "buy oat milk" |}
                [Scenario.dog 2; Scenario.milk 1] eq_refl) as (_ & _ & Hsave).
    destruct (Hsave eq_refl eq_refl) as (todos' & Hrun & Hat & _ & Hother).
    exists todos'. split_and!; [exact Hrun|exact Hat|].
    apply (Hother 0%nat (Scenario.dog 2)); [reflexivity|discriminate].
Defined.

Lemma ids_map_keep (f : Todo.t → Todo.t) todos :
  (∀ t, Todo.id (f t) = Todo.id t) → ids (map f todos) = ids todos.
Proof. intros Hf. unfold ids. rewrite map_map. by apply map_ext. Qed.

Lemma lookup_ids i t todos : todos !! i = Some t → Todo.id t ∈ ids todos.
Proof.
  intros Hi. unfold ids. apply list_elem_of_fmap. exists t. split; [done|].
  by eapply list_elem_of_lookup_2.
Qed.

(** One action: it throws and leaves the collection, or it returns and the
    ids are the old ones behind the clock reading of an accepted
    submission. *)
Lemma perform_ids a todos :
  (∃ e, TodoUI.perform a todos = (Throw e, todos) ∧ TodoUI.is_delete a = true) ∨
  (∃ todos', TodoUI.perform a todos = (Normal VUndefined, todos') ∧
             ids todos' = (TodoUI.clocks [a] ++ ids todos)%list).
Proof.
  destruct a as [now input|i|i st|i]; simpl.
  - right. unfold TodoForm.add, bind at 1.
    destruct (String.eqb input ""); by eexists.
  - right. unfold TodoUI.on_item, bind, get.
    destruct (todos !! i) as [t|] eqn:Hi; [|by eexists].
    unfold TodoItem.toggleCompleted. rewrite toggleComplete_run.
    eexists. split; [reflexivity|]. apply ids_map_keep.
    intros u. by destruct (_ =? _)%Z.
  - right. unfold TodoUI.on_item, bind at 1, get.
    destruct (todos !! i) as [t|] eqn:Hi; [|by eexists].
    unfold TodoItem.edit_onClick, bind at 1.
    destruct t.(Todo.completed); [by eexists|].
    destruct (TodoItem.isTodoEditable st); [|by eexists].
    unfold TodoItem.editTodo, bind at 1. rewrite updatedTodo_run.
    eexists. split; [reflexivity|]. apply ids_map_keep.
    intros u. by destruct (Z.eqb_spec u.(Todo.id) t.(Todo.id)).
  - unfold TodoUI.on_item, bind, get.
    destruct (todos !! i) as [t|] eqn:Hi; [|right; by eexists].
    left. eexists. split; [|done].
    unfold TodoItem.delete_onClick. apply deleteTodo_hit. by eapply lookup_ids.
Qed.

End Components.

(** ** Every run of user actions *)

Section UserRuns.
Import TodoApp.

Lemma ui_run_cons a acts todos :
  TodoUI.run (a :: acts) todos =
  match TodoUI.perform a todos with
  | (Normal _, todos') => TodoUI.run acts todos'
  | (Throw e, todos') => (Throw e, todos')
  end.
Proof. reflexivity. Qed.

Lemma ui_clocks_cons a acts :
  TodoUI.clocks (a :: acts) = (TodoUI.clocks [a] ++ TodoUI.clocks acts)%list.
Proof. destruct a as [now input| | |]; simpl; [|done..]. by destruct (String.eqb input ""). Qed.

Lemma ui_clocks_one a : TodoUI.clocks [a] = [] ∨ ∃ now, TodoUI.clocks [a] = [now].
Proof.
  destruct a as [now input| | |]; simpl; [|by left..].
  destruct (String.eqb input ""); [by left|right; by eexists].
Qed.

(** Wherever the run ends, the ids are those of the start behind the
    readings of the accepted submissions so far, latest first. *)
Lemma ui_run_ids acts : ∀ todos,
  ∃ k, ids (snd (TodoUI.run acts todos))
       = (reverse (take k (TodoUI.clocks acts)) ++ ids todos)%list.
Proof.
  induction acts as [|a acts IH]; intros todos.
  - by exists 0%nat.
  - rewrite ui_run_cons, ui_clocks_cons.
    destruct (perform_ids a todos) as [(e & -> & _)|(todos' & -> & Hids)].
    + by exists 0%nat.
    + destruct (IH todos') as [k Hk]. rewrite Hk, Hids.
      destruct (ui_clocks_one a) as [->|[now ->]].
      * by exists k.
      * exists (S k). simpl. by rewrite reverse_cons, <- app_assoc.
Qed.

(** Without a delete button among the actions the run returns, and every
    accepted submission is in the collection. *)
Lemma ui_run_completes acts : ∀ todos,
  forallb (fun a => negb (TodoUI.is_delete a)) acts = true →
  ∃ final, TodoUI.run acts todos = (Normal VUndefined, final) ∧
           ids final = (reverse (TodoUI.clocks acts) ++ ids todos)%list.
Proof.
  induction acts as [|a acts IH]; intros todos Hnd.
  - by exists todos.
  - simpl in Hnd. apply andb_true_iff in Hnd as [Ha Hnd].
    rewrite ui_run_cons, ui_clocks_cons.
    destruct (perform_ids a todos) as [(e & _ & Hdel)|(todos' & -> & Hids)].
    + by rewrite Hdel in Ha.
    + destruct (IH todos' Hnd) as (final & Hrun & Hfinal).
      exists final. split; [done|]. rewrite Hfinal, Hids.
      destruct (ui_clocks_one a) as [->|[now ->]]; [done|].
      simpl. by rewrite reverse_cons, <- app_assoc.
Qed.
(** X8: whatever the user does, in any order (submissions, checkboxes,
    edit/save buttons in any local state, delete buttons), when the clock
    readings of the accepted submissions are pairwise distinct the ids in the
    collection stay pairwise distinct, so the [key]s of the rendered items
    are unique, and they are readings of accepted submissions, latest first:
    no action reorders, duplicates or forges a record. Without delete
    buttons the run returns and holds one record per accepted submission. *)
Theorem ui_run_keeps_ids (acts : list TodoUI.action) :
  NoDup (TodoUI.clocks acts) →
  NoDup (ids (snd (TodoUI.run acts initial))) ∧
  (∃ k, ids (snd (TodoUI.run acts initial)) = reverse (take k (TodoUI.clocks acts))) ∧
  (forallb (fun a => negb (TodoUI.is_delete a)) acts = true →
   ∃ final, TodoUI.run acts initial = (Normal VUndefined, final) ∧
            ids final = reverse (TodoUI.clocks acts) ∧
            length final = length (TodoUI.clocks acts)).
Proof.
  intros Hclocks.
  destruct (ui_run_ids acts initial) as [k Hk]. unfold initial in *.
  simpl in Hk. rewrite app_nil_r in Hk. split_and!.
  - rewrite Hk, reverse_Permutation. eapply sublist_NoDup; [exact Hclocks|].
    apply sublist_take.
  - by exists k.
  - intros Hnd. destruct (ui_run_completes acts [] Hnd) as (final & Hrun & Hfinal).
    simpl in Hfinal. rewrite app_nil_r in Hfinal.
    exists final. split_and!; [done..|].
    rewrite <- (length_map Todo.id final). fold (ids final).
    by rewrite Hfinal, length_reverse.
Qed.

Lemma ui_run_keeps_ids_witness :
  NoDup (ids (snd (TodoUI.run
    [TodoUI.Submit 1 "buy milk"; TodoUI.Submit 2 ""; TodoUI.Checkbox 0;
     TodoUI.Submit 3 "walk dog";
     TodoUI.EditButton 1 {| TodoItem.isTodoEditable := true; TodoItem.todoMsg := "x" |};
     TodoUI.DeleteButton 0; TodoUI.Submit 4 "never added"] initial))) ∧
  ∃ final,
    TodoUI.run [TodoUI.Submit 1 "buy milk"; TodoUI.Submit 2 ""; TodoUI.Checkbox 0;
                TodoUI.Submit 3 "walk dog"] initial
    = (Normal VUndefined, final) ∧
    ids final = [3; 1].
Proof.
  split.
  - apply ui_run_keeps_ids. compute_done.
  - destruct (ui_run_keeps_ids
                [TodoUI.Submit 1 "buy milk"; TodoUI.Submit 2 ""; TodoUI.Checkbox 0;
                 TodoUI.Submit 3 "walk dog"]) as (_ & _ & Hdone).
    + compute_done.
    + destruct (Hdone eq_refl) as (final & Hrun & Hids & _). by exists final.
Defined.
End UserRuns.

(** ** The components outside every provider *)

(** X9: with the functions of the [TodoContext] default, every handler of
    the form and of an item returns and touches no state: the delete button
    does not throw, a save closes the edit mode and saves nothing, and the
    form clears its input although nothing was added. *)
Theorem components_outside_provider (S : Type) (s : S) (input : string) (t : Todo.t)
    (st : TodoItem.state) :
  TodoForm.add (TodoContext.addTodo (React.defaultValue TodoContext.TodoContext)) input s
  = (Normal "", s) ∧
  TodoItem.toggleCompleted
    (TodoContext.toggleComplete (React.defaultValue TodoContext.TodoContext)) t s
  = (Normal VUndefined, s) ∧
  TodoItem.delete_onClick
    (TodoContext.deleteTodo (React.defaultValue TodoContext.TodoContext)) t s
  = (Normal VUndefined, s) ∧
  TodoItem.edit_onClick
    (TodoContext.updatedTodo (React.defaultValue TodoContext.TodoContext)) t st s
  = (Normal (if Todo.completed t then st
             else {| TodoItem.isTodoEditable := negb (TodoItem.isTodoEditable st);
                     TodoItem.todoMsg := TodoItem.todoMsg st |}), s).
Proof.
  split_and!; try reflexivity.
  - unfold TodoForm.add. by destruct (String.eqb_spec input "") as [->|].
  - unfold TodoItem.edit_onClick. destruct (Todo.completed t); [done|].
    by destruct (TodoItem.isTodoEditable st).
Qed.

(** ** The mutators by reference: no write, one new array, shared records *)

Section RefFacts.
Import TodoAppRef.

(** X10: by reference, [addTodo], [updatedTodo] and [toggleComplete] return,
    write to no record and no array that existed, leave the array they were
    given holding the same records, and set [todos] to an array that did not
    exist before and that holds the collection computed by value. *)
Theorem ref_mutators_new_collection (s : state) (prev : list Todo.t) :
  contents s (todos s) = Some prev →
  (∀ now todo, ∃ s',
      addTodo now todo s = (Normal VUndefined, s') ∧
      new_collection s s' prev (snd (TodoApp.addTodo now todo prev))) ∧
  (∀ id todo patch, objects s !! todo = Some patch → ∃ s',
      updatedTodo id todo s = (Normal VUndefined, s') ∧
      new_collection s s' prev (snd (TodoApp.updatedTodo id patch prev))) ∧
  (∀ id, ∃ s',
      toggleComplete id s = (Normal VUndefined, s') ∧
      new_collection s s' prev (snd (TodoApp.toggleComplete id prev))).
Proof.
  intros Hprev. split_and!.
  - intros now todo. by apply ref_addTodo.
  - intros id todo patch Hpatch.
    destruct (ref_updatedTodo id todo patch s prev Hprev Hpatch) as (s' & Hrun & Hnew & _).
    by exists s'.
  - intros id. destruct (ref_toggleComplete id s prev Hprev) as (s' & Hrun & Hnew & _).
    by exists s'.
Qed.

Lemma ref_mutators_new_collection_witness :
  (∃ s', addTodo 3 Scenario.buy_milk two_todos = (Normal VUndefined, s') ∧
         new_collection two_todos s' [Scenario.dog 2; Scenario.milk 1]
                        [Scenario.milk 3; Scenario.dog 2; Scenario.milk 1]) ∧
  (∃ s', updatedTodo 1 2%positive two_todos = (Normal VUndefined, s') ∧
         new_collection two_todos s' [Scenario.dog 2; Scenario.milk 1]
                        [Scenario.dog 2; Scenario.dog 2]) ∧
  (∃ s', toggleComplete 2 two_todos = (Normal VUndefined, s') ∧
         new_collection two_todos s' [Scenario.dog 2; Scenario.milk 1]
                        [flip_completed (Scenario.dog 2); Scenario.milk 1]).
Proof.
  destruct (ref_mutators_new_collection two_todos [Scenario.dog 2; Scenario.milk 1])
    as (Hadd & Hupdate & Htoggle).
  - vm_compute. reflexivity.
  - split_and!.
    + apply (Hadd 3 Scenario.buy_milk).
    + apply (Hupdate 1 2%positive (Scenario.dog 2)). vm_compute. reflexivity.
    + apply (Htoggle 2).
Defined.

(** X11: structural sharing. The array [updatedTodo] or [toggleComplete]
    returns holds, at the position of every record with another id, the very
    address the old array holds there; [updatedTodo] allocates no record at
    all, and puts the caller's object at the matching positions. *)
Theorem ref_mutators_share_records (id : Z) (s : state) (prev : list Todo.t) :
  contents s (todos s) = Some prev →
  (∃ s' elems elems',
      toggleComplete id s = (Normal VUndefined, s') ∧
      arrays s !! todos s = Some elems ∧ arrays s' !! todos s' = Some elems' ∧
      Forall2 (fun l l' => ∀ o, objects s !! l = Some o → o.(Todo.id) ≠ id → l' = l)
              elems elems') ∧
  (∀ todo patch, objects s !! todo = Some patch →
    ∃ s' elems elems',
      updatedTodo id todo s = (Normal VUndefined, s') ∧
      objects s' = objects s ∧
      arrays s !! todos s = Some elems ∧ arrays s' !! todos s' = Some elems' ∧
      Forall2 (fun l l' => ∀ o, objects s !! l = Some o →
                                l' = if (o.(Todo.id) =? id)%Z then todo else l)
              elems elems').
Proof.
  intros Hprev. split.
  - destruct (ref_toggleComplete id s prev Hprev)
      as (s' & Hrun & _ & elems & elems' & Ha & Ha' & Hshare).
    by exists s', elems, elems'.
  - intros todo patch Hpatch.
    destruct (ref_updatedTodo id todo patch s prev Hprev Hpatch)
      as (s' & Hrun & _ & Hobj & elems & elems' & Ha & Ha' & Hshare).
    by exists s', elems, elems'.
Qed.

Lemma ref_mutators_share_records_witness :
  ∃ s' elems',
    toggleComplete 1 two_todos = (Normal VUndefined, s') ∧
    arrays s' !! todos s' = Some elems' ∧
    elems' !! 0%nat = Some 2%positive.
Proof.
  destruct (ref_mutators_share_records 1 two_todos [Scenario.dog 2; Scenario.milk 1])
    as [(s' & elems & elems' & Hrun & Ha & Ha' & Hshare) _].
  - vm_compute. reflexivity.
  - exists s', elems'. split_and!; [exact Hrun|exact Ha'|].
    assert (elems = [2; 1]%positive) as -> by (vm_compute in Ha; congruence).
    apply Forall2_cons_inv_l in Hshare as (l' & rest & Hl' & _ & ->).
    simpl. f_equal. apply (Hl' (Scenario.dog 2)); [vm_compute; reflexivity|discriminate].
Defined.
End RefFacts.

(** ** Snapshots *)

Section Snapshots.
Import TodoAppRef TodoAppRefRun.

Lemma grows_ret {A} (a : A) : grows (ret a).
Proof. intros s. apply preserved_refl. Qed.

Lemma grows_throw {A} e : grows (throw (A:=A) e).
Proof. intros s. apply preserved_refl. Qed.

Lemma grows_bind {A B} (m : M state A) (k : A → M state B) :
  grows m → (∀ a, grows (k a)) → grows (bind m k).
Proof.
  intros Hm Hk s. unfold bind. specialize (Hm s).
  destruct (m s) as [[a|e] s1]; simpl in *; [|done].
  eapply preserved_trans; [exact Hm|apply Hk].
Qed.

Lemma grows_array_map {A B} (f : A → M state B) l :
  (∀ x, grows (f x)) → grows (array_map f l).
Proof.
  intros Hf. induction l as [|x l IH]; simpl; [apply grows_ret|].
  apply grows_bind; [done|]. intros y. apply grows_bind; [done|]. intros ys. apply grows_ret.
Qed.

Lemma grows_new_object o : grows (new_object o).
Proof. intros s. split; simpl; [|done]. apply insert_subseteq, fresh_object. Qed.

Lemma grows_new_array elems : grows (new_array elems).
Proof. intros s. split; simpl; [done|]. apply insert_subseteq, fresh_array. Qed.

Lemma grows_read_object l : grows (read_object l).
Proof. intros s. unfold read_object. destruct (objects s !! l); apply preserved_refl. Qed.

Lemma grows_read_array l : grows (read_array l).
Proof. intros s. unfold read_array. destruct (arrays s !! l); apply preserved_refl. Qed.

Lemma grows_setTodos updater : (∀ prev, grows (updater prev)) → grows (setTodos updater).
Proof.
  intros Hu. unfold setTodos. apply grows_bind; [intros s; apply preserved_refl|].
  intros prev. apply grows_bind; [done|]. intros next.
  apply grows_bind; [intros s; by split|]. intros _. apply grows_ret.
Qed.

Lemma grows_map_method prev callback :
  (∀ l, grows (callback l)) → grows (map_method prev callback).
Proof.
  intros Hc. unfold map_method. apply grows_bind; [apply grows_read_array|].
  intros elems. apply grows_bind; [by apply grows_array_map|].
  intros mapped. apply grows_new_array.
Qed.

(** Every mutator call, returning or throwing, only adds cells. *)
Lemma grows_perform c : grows (perform c).
Proof.
  destruct c as [now todo|id todo|id|id]; simpl; apply grows_setTodos; intros prev.
  - apply grows_bind; [apply grows_new_object|]. intros o.
    apply grows_bind; [apply grows_read_array|]. intros elems. apply grows_new_array.
  - apply grows_map_method. intros l. apply grows_bind; [apply grows_read_object|].
    intros o. destruct (_ =? _)%Z; apply grows_ret.
  - apply grows_map_method. intros l. apply grows_bind; [apply grows_read_object|].
    intros o. destruct (_ =? _)%Z; [apply grows_throw|apply grows_ret].
  - apply grows_map_method. intros l. apply grows_bind; [apply grows_read_object|].
    intros o. destruct (_ =? _)%Z; [apply grows_new_object|apply grows_ret].
Qed.

Lemma run_preserved cs : ∀ s, preserved s (run cs s).
Proof.
  induction cs as [|c cs IH]; intros s; simpl; [apply preserved_refl|].
  eapply preserved_trans; [apply grows_perform|apply IH].
Qed.

(** X12: a snapshot is immutable. Whatever mutators are called afterwards,
    with whatever arguments, returning or throwing, an array that held the
    collection [l] still holds [l], and every record keeps its fields: a
    consumer that kept the [todos] of an earlier render reads the same
    collection from it. *)
Theorem snapshots_are_immutable (cs : list call) (s : state) (a : positive)
    (l : list Todo.t) :
  contents s a = Some l →
  contents (run cs s) a = Some l ∧
  (∀ x o, objects s !! x = Some o → objects (run cs s) !! x = Some o).
Proof.
  intros Ha. pose proof (run_preserved cs s) as Hpre. split.
  - by eapply contents_preserved.
  - intros x o Hx. eapply lookup_weaken; [exact Hx|apply Hpre].
Qed.

Lemma snapshots_are_immutable_witness :
  contents (run [CallToggle 1; CallDelete 2; CallAdd 3 Scenario.buy_milk;
                 CallUpdate 2 1%positive] two_todos)
           (todos two_todos)
  = Some [Scenario.dog 2; Scenario.milk 1].
Proof.
  apply (snapshots_are_immutable
           [CallToggle 1; CallDelete 2; CallAdd 3 Scenario.buy_milk; CallUpdate 2 1%positive]
           two_todos (todos two_todos) [Scenario.dog 2; Scenario.milk 1]).
  vm_compute. reflexivity.
Defined.
End Snapshots.

(** ** The rate hook on every outcome *)

Section RateOutcomes.
Import CurrencyConverter.

(** X13: the promise chain of [useCurrencyInfo] never ends rejected, and the
    data it leaves depends on the outcome of the fetch alone: not on the data
    of before (rates of the previous currency are never kept), and not on the
    HTTP status of the response. *)
Theorem useCurrencyInfo_settles_memoryless (fetched : completion Response) (data1 data2 : value) :
  (∃ data, useCurrencyInfo fetched data1 = Normal data ∧
           useCurrencyInfo fetched data2 = Normal data) ∧
  (∀ st1 st2 body,
      useCurrencyInfo (Normal {| status := st1; json := body |}) data1
      = useCurrencyInfo (Normal {| status := st2; json := body |}) data2).
Proof.
  split.
  - destruct fetched as [[st [body|e]]|e]; [|by eexists..].
    destruct body; by eexists.
  - intros st1 st2 [body|e]; [|done]. by destruct body.
Qed.

(** X14: what the data is, by the body of the response, on every status: the
    [rates] property of a JSON object, also when it is not a mapping;
    [undefined] for an object without [rates] and for a body that is a
    boolean, a number, a string or an array; and [{}] for the body [null],
    whose property read throws into [catch]. *)
Theorem useCurrencyInfo_by_body (st : Z) (data : value) :
  (∀ fields rates,
      assoc "rates" fields = Some rates →
      useCurrencyInfo (Normal {| status := st; json := Normal (VObj fields) |}) data
      = Normal rates) ∧
  (∀ fields,
      assoc "rates" fields = None →
      useCurrencyInfo (Normal {| status := st; json := Normal (VObj fields) |}) data
      = Normal VUndefined) ∧
  useCurrencyInfo (Normal {| status := st; json := Normal VNull |}) data = Normal (VObj []) ∧
  (∀ body,
      match body with VBool _ | VNum _ | VStr _ | VArr _ => True | _ => False end →
      useCurrencyInfo (Normal {| status := st; json := Normal body |}) data
      = Normal VUndefined).
Proof.
  split_and!.
  - intros fields rates Hr. rewrite useCurrencyInfo_json_object. by rewrite Hr.
  - intros fields Hr. rewrite useCurrencyInfo_json_object. by rewrite Hr.
  - reflexivity.
  - intros body Hbody. by destruct body.
Qed.

Lemma useCurrencyInfo_by_body_witness :
  useCurrencyInfo
    (Normal {| status := 200;
               json := Normal (VObj [("base", VStr "USD");
                                     ("rates", VObj [("USD", VNum 1); ("INR", VNum (831 # 10))])]) |})
    initial
  = Normal (VObj [("USD", VNum 1); ("INR", VNum (831 # 10))]) ∧
  useCurrencyInfo (Normal {| status := 200; json := Normal (VObj [("base", VStr "USD")]) |})
                  initial
  = Normal VUndefined ∧
  useCurrencyInfo (Normal {| status := 200; json := Normal (VArr []) |}) initial
  = Normal VUndefined.
Proof.
  destruct (useCurrencyInfo_by_body 200 initial) as (Hrates & Hnone & _ & Hother).
  split_and!.
  - apply Hrates. reflexivity.
  - apply Hnone. reflexivity.
  - apply Hother. exact I.
Defined.
End RateOutcomes.

(** ** The theme button and the class of the page *)

Section ThemePage.
Import ThemeSwitcher.

(** X15: under the theme [App]'s provider the checkbox is a faithful
    control: after [onChangeBtn] with the box checked or unchecked, from any
    state, the state is a declared variant and the next render gives the
    checkbox that very [checked]. With the [ThemeContext] default the click
    changes nothing and the box renders unchecked. *)
Theorem ThemeBtn_checkbox_follows_click (mode : string) (clicked : bool) :
  (∃ mode',
      ThemeBtn.onChangeBtn (App.provided mode) clicked mode = (Normal VUndefined, mode') ∧
      App.declared_variant mode' ∧
      ThemeBtn.checked (App.provided mode') = clicked) ∧
  (ThemeBtn.onChangeBtn (React.defaultValue Them.ThemeContext) clicked mode
   = (Normal VUndefined, mode) ∧
   ThemeBtn.checked (S:=string) (React.defaultValue Them.ThemeContext) = false).
Proof.
  split; [|by destruct clicked].
  destruct clicked; eexists; (split; [reflexivity|]); split; [by right|done|by left|done].
Qed.

Lemma remove_themes_twice classes :
  ThemeDom.classList_remove ["light"; "dark"]
    (ThemeDom.classList_remove ["light"; "dark"] classes)
  = ThemeDom.classList_remove ["light"; "dark"] classes.
Proof.
  unfold ThemeDom.classList_remove. induction classes as [|c classes IH]; [done|].
  destruct (decide (c ∉ ["light"; "dark"])) as [Hc|Hc].
  - rewrite (filter_cons_True _ c classes Hc), (filter_cons_True _ c _ Hc). by rewrite IH.
  - by rewrite (filter_cons_False _ c classes Hc).
Qed.

Lemma remove_themes_app classes mode :
  App.declared_variant mode →
  ThemeDom.classList_remove ["light"; "dark"] (classes ++ [mode])%list
  = ThemeDom.classList_remove ["light"; "dark"] classes.
Proof.
  intros Hmode. unfold ThemeDom.classList_remove. rewrite filter_app.
  rewrite (filter_cons_False _ mode []).
  - by rewrite filter_nil, app_nil_r.
  - intros Hn. apply Hn. destruct Hmode as [->| ->]; set_solver.
Qed.

Lemma add_theme_removed classes mode :
  App.declared_variant mode →
  ThemeDom.classList_add mode (ThemeDom.classList_remove ["light"; "dark"] classes)
  = (ThemeDom.classList_remove ["light"; "dark"] classes ++ [mode])%list.
Proof.
  intros Hmode. unfold ThemeDom.classList_add.
  destruct (decide _) as [Hin|]; [|done].
  unfold ThemeDom.classList_remove in Hin. apply list_elem_of_filter in Hin as [Hn _].
  destruct Hn. destruct Hmode as [->| ->]; set_solver.
Qed.

Lemma effect_classes mode classes :
  App.declared_variant mode →
  ThemeDom.effect mode classes
  = (Normal VUndefined,
     (ThemeDom.classList_remove ["light"; "dark"] classes ++ [mode])%list).
Proof.
  intros Hmode. unfold ThemeDom.effect, bind, get, put, ret. simpl.
  by rewrite add_theme_removed.
Qed.

Lemma page_invoke c mode classes0 :
  App.declared_variant mode →
  ∃ mode',
    App.invoke c mode = (Normal VUndefined, mode') ∧ App.declared_variant mode' ∧
    ThemeDom.invoke c
      (ThemeDom.Page mode (ThemeDom.classList_remove ["light"; "dark"] classes0 ++ [mode])%list)
    = ThemeDom.Page mode'
        (ThemeDom.classList_remove ["light"; "dark"] classes0 ++ [mode'])%list.
Proof.
  intros Hmode. destruct (invoke_variant c mode) as (mode' & Hc & Hmode').
  exists mode'. split_and!; [done..|].
  unfold ThemeDom.invoke. cbn [ThemeDom.themeMode ThemeDom.classes]. rewrite Hc. cbn [snd].
  destruct (String.eqb_spec mode' mode) as [->|Hne]; [done|].
  rewrite (effect_classes _ _ Hmode'). cbn [snd].
  by rewrite (remove_themes_app _ _ Hmode), remove_themes_twice.
Qed.

(** X16: the class of the page follows the theme. After the first render
    and after every sequence of setter calls, the classes of the [html]
    element are the classes it had that are not theme names, in their order,
    followed by the current theme: never both themes, never none, and no
    other class is lost; the theme is the state the setters alone
    compute. *)
Theorem html_class_follows_theme (cs : list App.setter) (classes0 : list string) :
  ∃ mode,
    App.run cs App.initial = (Normal VUndefined, mode) ∧
    App.declared_variant mode ∧
    ThemeDom.run cs (ThemeDom.mount classes0)
    = ThemeDom.Page mode (ThemeDom.classList_remove ["light"; "dark"] classes0 ++ [mode])%list.
Proof.
  assert (∀ cs mode, App.declared_variant mode →
            ∃ mode', App.run cs mode = (Normal VUndefined, mode') ∧ App.declared_variant mode' ∧
              ThemeDom.run cs
                (ThemeDom.Page mode
                   (ThemeDom.classList_remove ["light"; "dark"] classes0 ++ [mode])%list)
              = ThemeDom.Page mode'
                  (ThemeDom.classList_remove ["light"; "dark"] classes0 ++ [mode'])%list)
    as Hrun.
  { clear cs. induction cs as [|c cs IH]; intros mode Hmode.
    - by exists mode.
    - destruct (page_invoke c mode classes0 Hmode) as (mode1 & Hc & Hmode1 & Hpage).
      destruct (IH mode1 Hmode1) as (mode' & Hcs & Hmode' & Hpages).
      exists mode'. split_and!; [|done|].
      + simpl. unfold bind at 1. by rewrite Hc.
      + unfold ThemeDom.run in *. cbn [foldl]. by rewrite Hpage. }
  unfold ThemeDom.mount. rewrite effect_classes by (by left). cbn [snd].
  apply Hrun. by left.
Qed.
End ThemePage.

(** ** miniContext: logging in and the profile *)

Section LoginProfile.
Import MiniContext.

(** X17: under [UserContextProvider], a submit in [Login] replaces the user
    by the typed name and password, whoever was logged in and whatever was
    typed (nothing is checked, both may be empty); [Profile] then greets the
    name, except that an empty name, like no login at all, shows
    "Please Login". *)
Theorem login_then_profile (user : option User) (name pass : string) :
  LoginForm.submit name pass user
  = (Normal VUndefined, Some {| username := name; password := pass |}) ∧
  LoginForm.profile (Some {| username := name; password := pass |})
  = (Normal (if String.eqb name "" then "Please Login" else "Welcome " ++ name),
     Some {| username := name; password := pass |}) ∧
  LoginForm.profile None = (Normal "Please Login", None).
Proof. split_and!; reflexivity. Qed.

(** X18: outside [UserContextProvider] both consumers throw a TypeError
    while rendering, at the destructuring of the [undefined] that
    [useContext(UserContext)] returned, and no state is touched. *)
Theorem consumers_outside_provider_throw (S : Type) (s : S) :
  (∃ msg, Login (S:=S) [] s = (Throw (TypeError msg), s)) ∧
  (∃ msg, Profile (S:=S) [] s = (Throw (TypeError msg), s)).
Proof. split; by eexists. Qed.
End LoginProfile.
